(** * Fruit Nova Defense: the simulation core of [src/App.tsx]

    A shallow embedding of the game's state container and of the three
    callbacks that write to it ([initGame], [handleCanvasClick], [update]
    with its helper [spawnRocket]), followed by the properties of the
    simulation step.

    Modelling decisions.
    - A JavaScript [number] is a binary64 float: Rocq's primitive [float].
      [Math.sqrt], [Math.abs], [+ - * /] and the comparisons are the
      primitive operations; [Math.floor] is written out below.
    - [Math.random()] is a stream [nat -> float] of draws, threaded through
      the callbacks by the index of the next draw.
    - [stateRef.current] is in sync with the React state when a callback
      runs, and React applies the queued updater functions in order, so a
      callback is a function from the state it reads to the state that
      results.
    - Each updater runs once. The updater of [update] writes to objects
      of the state it is given (the [destroyed] flags, the explosions
      array and its elements): the model keeps, next to the updater's
      local variables, what those shared objects hold, since one of the
      two returns reads them back through [prev].
    - Reading a property of [undefined] throws: the callbacks return an
      [outcome]. *)

From Stdlib Require Import ZArith List Bool String Lia.
From Stdlib Require Import Uint63 Floats.
Import ListNotations.

Set Implicit Arguments.
Set Warnings "-inexact-float".

(* ===================================================================== *)
(** * JavaScript numbers *)
(* ===================================================================== *)

Module JS.

Definition number := float.

(** An integer below 2^53 as a number (exact). *)
Definition of_Z (z : Z) : number := PrimFloat.of_uint63 (Uint63.of_Z z).

Definition of_nat (n : nat) : number := of_Z (Z.of_nat n).

(** [Math.floor]: the largest integral number not above [v]; zeros,
    infinities and NaN are returned as they are. *)
Definition floor (v : number) : number :=
  match Prim2SF v with
  | S754_finite s m e =>
      if (0 <=? e)%Z then v
      else
        let q := Z.shiftr (Zpos m) (- e) in
        let exact := (Z.shiftl q (- e) =? Zpos m)%Z in
        if s then (if exact then - of_Z q else - of_Z (q + 1))%float
        else of_Z q
  | _ => v
  end.

(** The array index a number denotes when used as a property key:
    a non-negative integral value; any other key finds no element. *)
Definition index (v : number) : option nat :=
  match Prim2SF v with
  | S754_zero _ => Some 0%nat
  | S754_finite false m e =>
      if (0 <=? e)%Z then Some (Z.to_nat (Z.shiftl (Zpos m) e))
      else
        let q := Z.shiftr (Zpos m) (- e) in
        if (Z.shiftl q (- e) =? Zpos m)%Z then Some (Z.to_nat q) else None
  | _ => None
  end.

(** [arr[v]]: [undefined] is [None]. *)
Definition get {A : Type} (arr : list A) (v : number) : option A :=
  match index v with
  | Some i => nth_error arr i
  | None => None
  end.

(** [n] applications of [f], as a loop body run [n] times. *)
Fixpoint times {A : Type} (n : nat) (f : A -> A) (a : A) : A :=
  match n with
  | O => a
  | S n' => times n' f (f a)
  end.

End JS.

Local Open Scope float_scope.

(** A callback either runs to its end or throws a [TypeError] (a property
    of [undefined] was read). *)
Inductive outcome (A : Type) : Type :=
| Done (a : A)
| TypeError.

Arguments Done {A} a.
Arguments TypeError {A}.

(** [Math.random]: the [i]-th draw made for one callback (the updater it
    queues included). *)
Definition Random := nat -> JS.number.

(* ===================================================================== *)
(** * Data model ([types.ts]) *)
(* ===================================================================== *)

Record Point := mkPoint { x : JS.number; y : JS.number }.

(** An [id] is a string. The literal ids of the initial layout are kept as
    strings; [Rand36 r] stands for [r.toString(36).substr(2, 9)] of the
    draw [r]. No code path reads an id. *)
Inductive Id : Type :=
| Lit (s : string)
| Rand36 (r : JS.number).

(** [Atan2 a b] stands for the number [Math.atan2(a, b)], which no code
    path reads back. *)
Inductive Angle : Type :=
| Atan2 (a b : JS.number).

Module Rocket.
Record t := mk
  { id : Id; pos : Point; target : Point; speed : JS.number; angle : Angle }.
End Rocket.

Module Interceptor.
Record t := mk
  { id : Id; pos : Point; target : Point; origin : Point;
    speed : JS.number; batteryIndex : Z }.
End Interceptor.

Module Explosion.
Record t := mk
  { id : Id; pos : Point; radius : JS.number; maxRadius : JS.number;
    growing : bool; alpha : JS.number }.
End Explosion.

Module City.
Record t := mk { id : Id; pos : Point; destroyed : bool }.
End City.

Module Battery.
Record t := mk
  { id : Id; pos : Point; ammo : JS.number; maxAmmo : JS.number;
    destroyed : bool }.
End Battery.

Inductive GameStatus : Type :=
| START | PLAYING | WON | LOST | LEVEL_COMPLETE.

Record GameState := mkGameState
  { score : JS.number;
    level : JS.number;
    status : GameStatus;
    rockets : list Rocket.t;
    interceptors : list Interceptor.t;
    explosions : list Explosion.t;
    cities : list City.t;
    batteries : list Battery.t;
    destroyedCount : JS.number }.

(* ===================================================================== *)
(** * Constants *)
(* ===================================================================== *)

Definition TARGET_SCORE : JS.number := 3000.
Definition CANVAS_WIDTH : JS.number := 800.
Definition CANVAS_HEIGHT : JS.number := 600.
Definition EXPLOSION_MAX_RADIUS : JS.number := 40.
Definition EXPLOSION_SPEED : JS.number := 1.5.
Definition ROCKET_SPEED_BASE : JS.number := 0.8.
Definition INTERCEPTOR_SPEED : JS.number := 6.
Definition SPAWN_RATE_BASE : JS.number := 0.015.

(* ===================================================================== *)
(** * The state container: initial value and [initGame] *)
(* ===================================================================== *)

Definition city (name : string) (cx : JS.number) : City.t :=
  City.mk (Lit name) (mkPoint cx 550) false.

Definition battery (name : string) (bx am : JS.number) : Battery.t :=
  Battery.mk (Lit name) (mkPoint bx 550) am am false.

Definition layoutCities : list City.t :=
  [ city "c1" 150; city "c2" 250; city "c3" 350;
    city "c4" 450; city "c5" 550; city "c6" 650 ].

Definition layoutBatteries : list Battery.t :=
  [ battery "b1" 50 20; battery "b2" 400 40; battery "b3" 750 20 ].

(** The argument of [useState]. *)
Definition initialState : GameState :=
  {| score := 0; level := 1; status := START;
     rockets := []; interceptors := []; explosions := [];
     cities := layoutCities; batteries := layoutBatteries;
     destroyedCount := 0 |}.

(** [initGame]: [setGameState] with an object literal; the state it
    replaces is not read. *)
Definition initGame (_ : GameState) : GameState :=
  {| score := 0; level := 1; status := PLAYING;
     rockets := []; interceptors := []; explosions := [];
     cities := layoutCities; batteries := layoutBatteries;
     destroyedCount := 0 |}.

(** Object spread with one property replaced: [{ ...prev, rockets }] and
    [{ ...prev, interceptors }]. *)
Definition withRockets (prev : GameState) (rs : list Rocket.t) : GameState :=
  {| score := score prev; level := level prev; status := status prev;
     rockets := rs; interceptors := interceptors prev;
     explosions := explosions prev; cities := cities prev;
     batteries := batteries prev; destroyedCount := destroyedCount prev |}.

Definition withInterceptors (prev : GameState) (ics : list Interceptor.t)
  : GameState :=
  {| score := score prev; level := level prev; status := status prev;
     rockets := rockets prev; interceptors := ics;
     explosions := explosions prev; cities := cities prev;
     batteries := batteries prev; destroyedCount := destroyedCount prev |}.

(* ===================================================================== *)
(** * [spawnRocket] *)
(* ===================================================================== *)

Definition cityAlive (c : City.t) : bool := negb (City.destroyed c).
Definition batteryAlive (b : Battery.t) : bool := negb (Battery.destroyed b).

Definition availableTargets (s : GameState) : list Point :=
  map City.pos (filter cityAlive (cities s))
  ++ map Battery.pos (filter batteryAlive (batteries s)).

Definition newRocket (rnd : Random) (n : nat) (s : GameState) (target : Point)
  : Rocket.t :=
  let startX := rnd (n + 1)%nat * CANVAS_WIDTH in
  let id := Rand36 (rnd (n + 2)%nat) in
  let angle := Atan2 (y target) (x target - startX) in
  {| Rocket.id := id;
     Rocket.pos := mkPoint startX 0;
     Rocket.target := target;
     Rocket.speed := ROCKET_SPEED_BASE + level s * 0.2;
     Rocket.angle := angle |}.

(** Returns the resulting state and the index of the next draw. *)
Definition spawnRocket (rnd : Random) (n : nat) (s : GameState)
  : outcome (GameState * nat) :=
  match status s with
  | PLAYING =>
      let targets := availableTargets s in
      if (List.length targets =? 0)%nat then Done (s, n)
      else
        match JS.get targets
                (JS.floor (rnd n * JS.of_nat (List.length targets))) with
        | None => TypeError
        | Some target =>
            Done (withRockets s (rockets s ++ [newRocket rnd n s target]),
                  (n + 3)%nat)
        end
  | _ => Done (s, n)
  end.

(* ===================================================================== *)
(** * [handleCanvasClick] *)
(* ===================================================================== *)

Module DOMRect.
Record t := mk
  { left : JS.number; top : JS.number; width : JS.number; height : JS.number }.
End DOMRect.

(** A mouse event carries its client coordinates; a touch-start event
    carries a non-empty list of touches, of which the first is read. *)
Inductive PointerEvent : Type :=
| MouseEvent (clientX clientY : JS.number)
| TouchEvent (first : JS.number * JS.number)
             (others : list (JS.number * JS.number)).

Definition clientPoint (e : PointerEvent) : JS.number * JS.number :=
  match e with
  | MouseEvent clientX clientY => (clientX, clientY)
  | TouchEvent first _ => first
  end.

(** The tap in canvas coordinates; the canvas element has width
    [CANVAS_WIDTH] and height [CANVAS_HEIGHT]. *)
Definition canvasPoint (rect : DOMRect.t) (e : PointerEvent) : Point :=
  let scaleX := CANVAS_WIDTH / DOMRect.width rect in
  let scaleY := CANVAS_HEIGHT / DOMRect.height rect in
  let '(clientX, clientY) := clientPoint e in
  mkPoint ((clientX - DOMRect.left rect) * scaleX)
          ((clientY - DOMRect.top rect) * scaleY).

(** The [forEach] over [s.batteries]: [idx] is the index of the head of
    [bs]; the result is the final [(nearestBatteryIdx, minDist)]. *)
Fixpoint nearestBattery (tx : JS.number) (bs : list Battery.t) (idx : Z)
  (nearestBatteryIdx : Z) (minDist : JS.number) : Z * JS.number :=
  match bs with
  | [] => (nearestBatteryIdx, minDist)
  | b :: bs' =>
      if negb (Battery.destroyed b) then
        let dist := abs (x (Battery.pos b) - tx) in
        if dist <? minDist then nearestBattery tx bs' (idx + 1) idx dist
        else nearestBattery tx bs' (idx + 1) nearestBatteryIdx minDist
      else nearestBattery tx bs' (idx + 1) nearestBatteryIdx minDist
  end.

Definition newInterceptor (rnd : Random) (battery : Battery.t) (tap : Point)
  (nearestBatteryIdx : Z) : Interceptor.t :=
  {| Interceptor.id := Rand36 (rnd 0%nat);
     Interceptor.pos := Battery.pos battery;
     Interceptor.origin := Battery.pos battery;
     Interceptor.target := tap;
     Interceptor.speed := INTERCEPTOR_SPEED;
     Interceptor.batteryIndex := nearestBatteryIdx |}.

(** [canvas] is [canvasRef.current] as its bounding rectangle, [None] when
    the ref is null. *)
Definition handleCanvasClick (rnd : Random) (canvas : option DOMRect.t)
  (e : PointerEvent) (s : GameState) : outcome GameState :=
  match status s with
  | PLAYING =>
      match canvas with
      | None => Done s
      | Some rect =>
          let tap := canvasPoint rect e in
          let nearestBatteryIdx :=
            fst (nearestBattery (x tap) (batteries s) 0 (-1) infinity) in
          if negb (nearestBatteryIdx =? -1)%Z then
            match nth_error (batteries s) (Z.to_nat nearestBatteryIdx) with
            | None => TypeError
            | Some battery =>
                Done (withInterceptors s
                        (interceptors s
                         ++ [newInterceptor rnd battery tap nearestBatteryIdx]))
            end
          else Done s
      end
  | _ => Done s
  end.

(* ===================================================================== *)
(** * [update]: the simulation step *)
(* ===================================================================== *)

(** ** 2. Rockets *)

Definition rocketDist (r : Rocket.t) : JS.number :=
  let dx := x (Rocket.target r) - x (Rocket.pos r) in
  let dy := y (Rocket.target r) - y (Rocket.pos r) in
  sqrt (dx * dx + dy * dy).

Definition rocketArrived (r : Rocket.t) : bool :=
  rocketDist r <? Rocket.speed r.

Definition moveRocket (r : Rocket.t) : Rocket.t :=
  let dx := x (Rocket.target r) - x (Rocket.pos r) in
  let dy := y (Rocket.target r) - y (Rocket.pos r) in
  let dist := sqrt (dx * dx + dy * dy) in
  let vx := (dx / dist) * Rocket.speed r in
  let vy := (dy / dist) * Rocket.speed r in
  {| Rocket.id := Rocket.id r;
     Rocket.pos := mkPoint (x (Rocket.pos r) + vx) (y (Rocket.pos r) + vy);
     Rocket.target := Rocket.target r;
     Rocket.speed := Rocket.speed r;
     Rocket.angle := Rocket.angle r |}.

(** [p.x === t.x && p.y === t.y] *)
Definition samePoint (p t : Point) : bool :=
  (x p =? x t) && (y p =? y t).

(** [cities.find(...)] followed by [cityHit.destroyed = true]: the first
    city at the target, if any, is written to in place. *)
Fixpoint hitCity (t : Point) (cs : list City.t) : list City.t :=
  match cs with
  | [] => []
  | c :: cs' =>
      if samePoint (City.pos c) t
      then City.mk (City.id c) (City.pos c) true :: cs'
      else c :: hitCity t cs'
  end.

Fixpoint hitBattery (t : Point) (bs : list Battery.t) : list Battery.t :=
  match bs with
  | [] => []
  | b :: bs' =>
      if samePoint (Battery.pos b) t
      then Battery.mk (Battery.id b) (Battery.pos b) (Battery.ammo b)
             (Battery.maxAmmo b) true :: bs'
      else b :: hitBattery t bs'
  end.

(** [rockets.map(...).filter(Boolean)]: the callback runs on the rockets in
    order and writes to the city and battery objects, which the later
    callbacks and the rest of the step see. Returns the surviving rockets
    and the contents of the [cities] and [batteries] arrays afterwards. *)
Fixpoint updateRockets (rs : list Rocket.t) (cs : list City.t)
  (bs : list Battery.t) : list Rocket.t * list City.t * list Battery.t :=
  match rs with
  | [] => ([], cs, bs)
  | r :: rs' =>
      if rocketArrived r then
        updateRockets rs' (hitCity (Rocket.target r) cs)
                          (hitBattery (Rocket.target r) bs)
      else
        let '(out, cs', bs') := updateRockets rs' cs bs in
        (moveRocket r :: out, cs', bs')
  end.

(** ** 3. Interceptors *)

Definition interceptorArrived (i : Interceptor.t) : bool :=
  let dx := x (Interceptor.target i) - x (Interceptor.pos i) in
  let dy := y (Interceptor.target i) - y (Interceptor.pos i) in
  sqrt (dx * dx + dy * dy) <? Interceptor.speed i.

Definition moveInterceptor (i : Interceptor.t) : Interceptor.t :=
  let dx := x (Interceptor.target i) - x (Interceptor.pos i) in
  let dy := y (Interceptor.target i) - y (Interceptor.pos i) in
  let dist := sqrt (dx * dx + dy * dy) in
  let vx := (dx / dist) * Interceptor.speed i in
  let vy := (dy / dist) * Interceptor.speed i in
  {| Interceptor.id := Interceptor.id i;
     Interceptor.pos :=
       mkPoint (x (Interceptor.pos i) + vx) (y (Interceptor.pos i) + vy);
     Interceptor.target := Interceptor.target i;
     Interceptor.origin := Interceptor.origin i;
     Interceptor.speed := Interceptor.speed i;
     Interceptor.batteryIndex := Interceptor.batteryIndex i |}.

Definition currentPower (destroyedCount : JS.number) : JS.number :=
  0.5 + JS.floor (destroyedCount / 5) * 0.5.

(** The object pushed for an arriving interceptor; [r] is the draw its id
    is made of. *)
Definition newExplosion (r : JS.number) (destroyedCount : JS.number)
  (i : Interceptor.t) : Explosion.t :=
  {| Explosion.id := Rand36 r;
     Explosion.pos := Interceptor.target i;
     Explosion.radius := 2;
     Explosion.maxRadius := EXPLOSION_MAX_RADIUS * currentPower destroyedCount;
     Explosion.growing := true;
     Explosion.alpha := 1 |}.

(** [interceptors.map(...).filter(Boolean)]: [arr] is the contents of the
    array [prev.explosions], which [explosions.push] extends in place.
    Returns the surviving interceptors, the array afterwards and the index
    of the next draw. *)
Fixpoint updateInterceptors (rnd : Random) (n : nat)
  (destroyedCount : JS.number) (ics : list Interceptor.t)
  (arr : list Explosion.t) : list Interceptor.t * list Explosion.t * nat :=
  match ics with
  | [] => ([], arr, n)
  | i :: ics' =>
      if interceptorArrived i then
        updateInterceptors rnd (S n) destroyedCount ics'
          (arr ++ [newExplosion (rnd n) destroyedCount i])
      else
        let '(out, arr', n') :=
          updateInterceptors rnd n destroyedCount ics' arr in
        (moveInterceptor i :: out, arr', n')
  end.

(** ** 4. Explosions *)

(** The writes of the [map] callback to one explosion object. *)
Definition ageExplosion (e : Explosion.t) : Explosion.t :=
  if Explosion.growing e then
    let radius := Explosion.radius e + EXPLOSION_SPEED in
    {| Explosion.id := Explosion.id e;
       Explosion.pos := Explosion.pos e;
       Explosion.radius := radius;
       Explosion.maxRadius := Explosion.maxRadius e;
       Explosion.growing :=
         if Explosion.maxRadius e <=? radius then false else true;
       Explosion.alpha := Explosion.alpha e |}
  else
    {| Explosion.id := Explosion.id e;
       Explosion.pos := Explosion.pos e;
       Explosion.radius := Explosion.radius e - EXPLOSION_SPEED * 0.5;
       Explosion.maxRadius := Explosion.maxRadius e;
       Explosion.growing := false;
       Explosion.alpha := Explosion.alpha e - 0.02 |}.

(** [e.radius > 0 && e.alpha > 0] *)
Definition explosionAlive (e : Explosion.t) : bool :=
  (0 <? Explosion.radius e) && (0 <? Explosion.alpha e).

(** ** 5. Collision detection *)

Definition inBlast (r : Rocket.t) (e : Explosion.t) : bool :=
  let dx := x (Rocket.pos r) - x (Explosion.pos e) in
  let dy := y (Rocket.pos r) - y (Explosion.pos e) in
  sqrt (dx * dx + dy * dy) <? Explosion.radius e.

(** [explosions.some(...)] *)
Definition hit (es : list Explosion.t) (r : Rocket.t) : bool :=
  existsb (inBlast r) es.

(** [rockets.map(...).filter(Boolean)] with its writes to [score] and
    [destroyedCount]. *)
Fixpoint collide (es : list Explosion.t) (rs : list Rocket.t)
  (score destroyedCount : JS.number)
  : list Rocket.t * JS.number * JS.number :=
  match rs with
  | [] => ([], score, destroyedCount)
  | r :: rs' =>
      if hit es r then collide es rs' (score + 50) (destroyedCount + 1)
      else
        let '(out, score', destroyedCount') :=
          collide es rs' score destroyedCount in
        (r :: out, score', destroyedCount')
  end.

(** ** The updater passed to [setGameState] *)

(** [{ ...b, ammo: b.maxAmmo }] *)
Definition refill (b : Battery.t) : Battery.t :=
  {| Battery.id := Battery.id b;
     Battery.pos := Battery.pos b;
     Battery.ammo := Battery.maxAmmo b;
     Battery.maxAmmo := Battery.maxAmmo b;
     Battery.destroyed := Battery.destroyed b |}.

(** The values of the updater's local variables when it reaches step 6,
    and [heapExplosions], the contents of the array [prev.explosions] at
    that point: steps 3 and 4 have pushed to it and written to its
    elements, while the local [explosions] was rebound to the filtered
    copy. The arrays [prev.cities] and [prev.batteries] are the ones the
    locals [cities] and [batteries] still name. *)
Record Locals := mkLocals
  { l_rockets : list Rocket.t;
    l_interceptors : list Interceptor.t;
    l_explosions : list Explosion.t;
    l_cities : list City.t;
    l_batteries : list Battery.t;
    l_score : JS.number;
    l_destroyedCount : JS.number;
    heapExplosions : list Explosion.t }.

Definition steps2to5 (rnd : Random) (n : nat) (prev : GameState) : Locals :=
  let '(rockets2, cities, batteries) :=
    updateRockets (rockets prev) (cities prev) (batteries prev) in
  let '(interceptors, pushed, _) :=
    updateInterceptors rnd n (destroyedCount prev) (interceptors prev)
      (explosions prev) in
  let aged := map ageExplosion pushed in
  let explosions := filter explosionAlive aged in
  let '(rockets5, score, destroyedCount) :=
    collide explosions rockets2 (score prev) (destroyedCount prev) in
  {| l_rockets := rockets5;
     l_interceptors := interceptors;
     l_explosions := explosions;
     l_cities := cities;
     l_batteries := batteries;
     l_score := score;
     l_destroyedCount := destroyedCount;
     heapExplosions := aged |}.

(** [{ ...prev, rockets, interceptors, explosions, cities, batteries,
       score, status, destroyedCount }] *)
Definition returnAll (prev : GameState) (l : Locals) (st : GameStatus)
  : GameState :=
  {| score := l_score l;
     level := level prev;
     status := st;
     rockets := l_rockets l;
     interceptors := l_interceptors l;
     explosions := l_explosions l;
     cities := l_cities l;
     batteries := l_batteries l;
     destroyedCount := l_destroyedCount l |}.

(** [{ ...prev, level: newLevel, batteries, rockets: [], interceptors: [],
       score }]: the properties not listed are read from [prev], whose
    arrays hold what the step wrote to them. *)
Definition returnLevelUp (prev : GameState) (l : Locals)
  (newLevel : JS.number) : GameState :=
  {| score := l_score l;
     level := newLevel;
     status := status prev;
     rockets := [];
     interceptors := [];
     explosions := heapExplosions l;
     cities := l_cities l;
     batteries := map refill (l_batteries l);
     destroyedCount := destroyedCount prev |}.

Definition newLevelOf (score : JS.number) : JS.number :=
  JS.floor (score / 500) + 1.

(** Step 6 on the locals. *)
Definition step6 (prev : GameState) (l : Locals) : GameState :=
  if TARGET_SCORE <=? l_score l then returnAll prev l WON
  else if forallb Battery.destroyed (l_batteries l) then returnAll prev l LOST
  else
    let newLevel := newLevelOf (l_score l) in
    if level prev <? newLevel then returnLevelUp prev l newLevel
    else returnAll prev l (status prev).

Definition updater (rnd : Random) (n : nat) (prev : GameState) : GameState :=
  step6 prev (steps2to5 rnd n prev).

(** [update]: the guard on the status, the spawn (draw 0 decides, draws 1
    to 3 are [spawnRocket]'s), then the updater, which React applies to the
    state the spawn left. *)
Definition update (rnd : Random) (s : GameState) : outcome GameState :=
  match status s with
  | PLAYING =>
      if rnd 0%nat <? SPAWN_RATE_BASE + level s * 0.005 then
        match spawnRocket rnd 1 s with
        | TypeError => TypeError
        | Done (prev, n) => Done (updater rnd n prev)
        end
      else Done (updater rnd 1 s)
  | _ => Done s
  end.

(* ===================================================================== *)
(** * The event loop *)
(* ===================================================================== *)

(** What can happen to the state container: a click on a start or restart
    button, an animation frame, a tap on the canvas. Each event carries the
    draws [Math.random] makes while its callback runs. *)
Inductive Event : Type :=
| Start
| Frame (rnd : Random)
| Tap (rnd : Random) (canvas : option DOMRect.t) (e : PointerEvent).

(** A callback that throws leaves the state as it was: no updater was
    queued before the exception. *)
Definition settle (s : GameState) (o : outcome GameState) : GameState :=
  match o with
  | Done s' => s'
  | TypeError => s
  end.

Definition handle (s : GameState) (ev : Event) : GameState :=
  match ev with
  | Start => initGame s
  | Frame rnd => settle s (update rnd s)
  | Tap rnd canvas e => settle s (handleCanvasClick rnd canvas e s)
  end.

Definition run (evs : list Event) (s : GameState) : GameState :=
  fold_left handle evs s.

Inductive reachable : GameState -> Prop :=
| reach_init : reachable initialState
| reach_step s ev : reachable s -> reachable (handle s ev).

(* ===================================================================== *)
(** * Auxiliary definitions used in the statements *)
(* ===================================================================== *)

(** What the spawn of a tick may have done to the state the updater is
    applied to: nothing, or one rocket appended. *)
Definition afterSpawn (rnd : Random) (s prev : GameState) : Prop :=
  prev = s \/
  exists target, prev = withRockets s (rockets s ++ [newRocket rnd 1 s target]).

(** No two points of the list are at the same coordinates. *)
Fixpoint distinctPoints (ps : list Point) : bool :=
  match ps with
  | [] => true
  | p :: ps' => negb (existsb (samePoint p) ps') && distinctPoints ps'
  end.

(** The number of rockets the collision step of the tick removes: the
    rockets that survived step 2 and are in the blast of an explosion that
    survived step 4. *)
Definition kills (rnd : Random) (n : nat) (prev : GameState) : nat :=
  let rockets2 :=
    fst (fst (updateRockets (rockets prev) (cities prev) (batteries prev))) in
  List.length (filter (hit (l_explosions (steps2to5 rnd n prev))) rockets2).

(** A draw stream under which no rocket is spawned (and ids are made of 1). *)
Definition quiet : Random := fun _ => 1.

(** ** Sample states *)

Definition rocketAt (px py tx ty sp : JS.number) : Rocket.t :=
  {| Rocket.id := Lit "r"; Rocket.pos := mkPoint px py;
     Rocket.target := mkPoint tx ty; Rocket.speed := sp;
     Rocket.angle := Atan2 ty (tx - px) |}.

Definition blastAt (px py r mr : JS.number) (g : bool) (a : JS.number)
  : Explosion.t :=
  {| Explosion.id := Lit "e"; Explosion.pos := mkPoint px py;
     Explosion.radius := r; Explosion.maxRadius := mr;
     Explosion.growing := g; Explosion.alpha := a |}.

Definition wrecked (b : Battery.t) : Battery.t :=
  {| Battery.id := Battery.id b; Battery.pos := Battery.pos b;
     Battery.ammo := Battery.ammo b; Battery.maxAmmo := Battery.maxAmmo b;
     Battery.destroyed := true |}.

(** One kill short of the target score, one battery left, a rocket in a
    blast and another rocket about to land on the last battery. *)
Definition lastStand : GameState :=
  {| score := 2950; level := 6; status := PLAYING;
     rockets := [rocketAt 100 100 150 550 2; rocketAt 400 549 400 550 2];
     interceptors := [];
     explosions := [blastAt 100 100 10 40 true 1];
     cities := layoutCities;
     batteries := [wrecked (battery "b1" 50 20); battery "b2" 400 40;
                   wrecked (battery "b3" 750 20)];
     destroyedCount := 59 |}.

(** One kill short of level 2: a rocket inside a growing blast, and a
    second blast on the last tick of its life (radius 0.5, shrinking by
    0.75 a tick). Battery b1 has spent ammo on display. *)
Definition levelEdge : GameState :=
  {| score := 450; level := 1; status := PLAYING;
     rockets := [rocketAt 100 100 150 550 1; rocketAt 600 20 650 550 1];
     interceptors :=
       [ {| Interceptor.id := Lit "i"; Interceptor.pos := mkPoint 400 550;
            Interceptor.target := mkPoint 420 100;
            Interceptor.origin := mkPoint 400 550;
            Interceptor.speed := 6; Interceptor.batteryIndex := 1 |} ];
     explosions := [blastAt 100 100 10 20 true 1;
                    blastAt 300 300 0.5 20 false 0.48];
     cities := layoutCities;
     batteries := [ {| Battery.id := Lit "b1"; Battery.pos := mkPoint 50 550;
                       Battery.ammo := 3; Battery.maxAmmo := 20;
                       Battery.destroyed := false |};
                    battery "b2" 400 40; wrecked (battery "b3" 750 20)];
     destroyedCount := 9 |}.

(** The "simple kill" scenario: an interceptor fired from battery b1 is
    5 units short of its target (50, 500), where a rocket is passing. *)
Definition simpleKill : GameState :=
  {| score := 0; level := 1; status := PLAYING;
     rockets := [rocketAt 50 500 150 550 1];
     interceptors :=
       [ {| Interceptor.id := Lit "i"; Interceptor.pos := mkPoint 50 505;
            Interceptor.target := mkPoint 50 500;
            Interceptor.origin := mkPoint 50 550;
            Interceptor.speed := 6; Interceptor.batteryIndex := 0 |} ];
     explosions := [];
     cities := layoutCities; batteries := layoutBatteries;
     destroyedCount := 0 |}.

(** The cities and batteries stand where the layout puts them. *)
Definition layoutKept (s : GameState) : Prop :=
  map City.pos (cities s) = map City.pos layoutCities /\
  map Battery.pos (batteries s) = map Battery.pos layoutBatteries.

(** Draws under which a tick spawns a rocket at (150, 0) aimed at the
    first available target. *)
Definition spawning : Random :=
  fun i => match i with
           | 0%nat => 0.01
           | 1%nat => 0
           | 2%nat => 0.1875
           | _ => 0.5
           end.

(** A game in which the first frame spawns a rocket aimed at city c1 and
    549 more frames bring it to the city. *)
Definition descent : list Event :=
  Start :: Frame spawning :: repeat (Frame quiet) 549.

(** The state in which the rocket of [descent] is about to land. *)
Definition landing : GameState := run descent initialState.

(** The horizontal distance the tap handler compares. *)
Definition tapDist (tx : JS.number) (b : Battery.t) : JS.number :=
  abs (x (Battery.pos b) - tx).

(** The canvas shown at its own size in the corner of the viewport. *)
Definition fullCanvas : DOMRect.t :=
  {| DOMRect.left := 0; DOMRect.top := 0;
     DOMRect.width := 800; DOMRect.height := 600 |}.

(** A game lost: every battery is destroyed. *)
Definition defeated : GameState :=
  {| score := 100; level := 1; status := LOST;
     rockets := []; interceptors := []; explosions := [];
     cities := map (fun c => City.mk (City.id c) (City.pos c) true)
                   layoutCities;
     batteries := map wrecked layoutBatteries;
     destroyedCount := 2 |}.

(** The same ruins with the status still PLAYING, as [spawnRocket] and the
    tap handler could be handed them. *)
Definition ruins : GameState :=
  {| score := 100; level := 1; status := PLAYING;
     rockets := []; interceptors := []; explosions := [];
     cities := cities defeated; batteries := batteries defeated;
     destroyedCount := 2 |}.

(** ** Marking the first structure at a target

    [hitCity] and [hitBattery] are the two instances of one loop, written
    here once for any kind of structure with a position. *)

Section HitFirstDef.

Variable A : Type.
Variable pos : A -> Point.
Variable destroyed : A -> bool.
Variable mark : A -> A.

Fixpoint hitFirst (t : Point) (l : list A) : list A :=
  match l with
  | [] => []
  | a :: l' => if samePoint (pos a) t then mark a :: l' else a :: hitFirst t l'
  end.

(** Every structure at [t] is destroyed. *)
Definition flattened (t : Point) (l : list A) : Prop :=
  forall a, In a l -> samePoint (pos a) t = true -> destroyed a = true.

End HitFirstDef.

Definition markCity (c : City.t) : City.t :=
  City.mk (City.id c) (City.pos c) true.

Definition markBattery (b : Battery.t) : Battery.t :=
  Battery.mk (Battery.id b) (Battery.pos b) (Battery.ammo b)
    (Battery.maxAmmo b) true.

(* ===================================================================== *)
(** * The overlay ([App]'s JSX) *)
(* ===================================================================== *)

(** The three panels of the overlay. Each holds one button whose [onClick]
    is [initGame]; the two end panels also show the score. *)
Inductive Panel : Type :=
| StartPanel
| LostPanel (shown : JS.number)
| WonPanel (shown : JS.number).

(** [cond && panel] inside JSX: the panel or nothing. *)
Definition shownWhen (cond : bool) (p : Panel) : list Panel :=
  if cond then [p] else [].

Definition isPlaying (st : GameStatus) : bool :=
  match st with PLAYING => true | _ => false end.

Definition isStartStatus (st : GameStatus) : bool :=
  match st with START => true | _ => false end.

Definition isLost (st : GameStatus) : bool :=
  match st with LOST => true | _ => false end.

Definition isWon (st : GameStatus) : bool :=
  match st with WON => true | _ => false end.

(** What is rendered over the canvas: [None] when no overlay is rendered,
    otherwise the panels inside the overlay, in order. *)
Definition overlay (s : GameState) : option (list Panel) :=
  if negb (isPlaying (status s)) then
    Some (shownWhen (isStartStatus (status s)) StartPanel
          ++ shownWhen (isLost (status s)) (LostPanel (score s))
          ++ shownWhen (isWon (status s)) (WonPanel (score s)))
  else None.

(* ===================================================================== *)
(** * Further definitions used in the statements *)
(* ===================================================================== *)

Definition isStartEvent (ev : Event) : bool :=
  match ev with Start => true | _ => false end.

Definition isTapEvent (ev : Event) : bool :=
  match ev with Tap _ _ _ => true | _ => false end.

(** What may separate a city before a tick from the same city after it. *)
Definition cityStep (c c' : City.t) : Prop :=
  City.id c' = City.id c /\
  City.pos c' = City.pos c /\
  (City.destroyed c = true -> City.destroyed c' = true).

(** The same for a battery; its ammo is kept or set to its [maxAmmo]. *)
Definition batteryStep (b b' : Battery.t) : Prop :=
  Battery.id b' = Battery.id b /\
  Battery.pos b' = Battery.pos b /\
  Battery.maxAmmo b' = Battery.maxAmmo b /\
  (Battery.destroyed b = true -> Battery.destroyed b' = true) /\
  (Battery.ammo b' = Battery.ammo b \/ Battery.ammo b' = Battery.maxAmmo b).

(** The positions of the nine structures of the layout. *)
Definition layoutTargets : list Point :=
  map City.pos layoutCities ++ map Battery.pos layoutBatteries.

(** The state [lastStand] with only the rocket that is about to land on the
    last battery. *)
Definition lastHit : GameState :=
  withRockets lastStand [rocketAt 400 549 400 550 2].

(** A game in which the player taps once and the interceptor flies for two
    frames. *)
Definition oneShot : list Event :=
  [Start; Tap quiet (Some fullCanvas) (MouseEvent 420 100);
   Frame quiet; Frame quiet].

(** A game with a spawn and frames but no tap. *)
Definition idle : list Event :=
  Start :: Frame spawning :: repeat (Frame quiet) 20.

(** ** Invariants *)

(** What never changes of a city, and of a battery in a game. *)
Definition cityCard (c : City.t) : Id * Point := (City.id c, City.pos c).

Definition batteryCard (b : Battery.t)
  : Id * Point * JS.number * JS.number :=
  (Battery.id b, Battery.pos b, Battery.ammo b, Battery.maxAmmo b).

Definition ammoFull (b : Battery.t) : Prop :=
  Battery.ammo b = Battery.maxAmmo b.

(** The structures are those of the layout, with the ammo of the layout. *)
Definition stocked (s : GameState) : Prop :=
  map cityCard (cities s) = map cityCard layoutCities /\
  map batteryCard (batteries s) = map batteryCard layoutBatteries /\
  Forall ammoFull (batteries s).

(** Nothing has been fired and nothing scored. *)
Definition unarmed (s : GameState) : Prop :=
  interceptors s = [] /\ explosions s = [] /\
  score s = 0 /\ destroyedCount s = 0 /\ level s = 1 /\ status s <> WON.

(** A growing explosion has not reached its maxRadius. *)
Definition belowMax (e : Explosion.t) : Prop :=
  Explosion.growing e = true ->
  (Explosion.maxRadius e <=? Explosion.radius e) = false.

(** Fired at speed 6 from the battery of the layout at its index. *)
Definition fromLayout (i : Interceptor.t) : Prop :=
  Interceptor.speed i = 6 /\
  (0 <= Interceptor.batteryIndex i < 3)%Z /\
  nth_error (map Battery.pos layoutBatteries)
            (Z.to_nat (Interceptor.batteryIndex i))
    = Some (Interceptor.origin i).

(** A tap 5 units above battery b2 and one frame: the interceptor arrives
    at once and leaves an explosion. *)
Definition pointBlank : list Event :=
  [Start; Tap quiet (Some fullCanvas) (MouseEvent 400 545); Frame quiet].

(* ===================================================================== *)
(** * Numbers: checks and order lemmas *)
(* ===================================================================== *)

Example floor_pos : JS.floor 1.02 = 1.
Proof. reflexivity. Qed.

Example floor_neg : JS.floor (-0.5) = -1.
Proof. reflexivity. Qed.

Example floor_int : JS.floor 6 = 6.
Proof. reflexivity. Qed.

Example floor_small : JS.floor 0.98 = 0.
Proof. reflexivity. Qed.

Example floor_nan : JS.floor nan = nan.
Proof. reflexivity. Qed.

Example index_two : JS.index (JS.floor (0.9 * 3)) = Some 2%nat.
Proof. reflexivity. Qed.

Example index_nan : JS.index nan = None.
Proof. reflexivity. Qed.

Example index_negative : JS.index (-1) = None.
Proof. reflexivity. Qed.

Section FloatOrder.

Lemma SFcompare_antisym (a b : spec_float) (c : comparison) :
  SFcompare a b = Some c -> SFcompare b a = Some (CompOpp c).
Proof.
  destruct a as [sa|sa| |sa ma ea], b as [sb|sb| |sb mb eb]; simpl;
    try discriminate;
    try (destruct sa); try (destruct sb); simpl;
    intros H; inversion H; subst; clear H; try reflexivity;
    rewrite (Z.compare_antisym ea eb);
    destruct (ea ?= eb)%Z; simpl; try reflexivity;
    rewrite (Pos.compare_cont_antisym ma mb Eq); simpl;
    try rewrite CompOpp_involutive; reflexivity.
Qed.

Ltac order_exponents :=
  match goal with
  | |- context [(?a ?= ?b)%Z] =>
      let H := fresh in
      assert (H : (a ?= b)%Z = Lt) by (apply Z.compare_lt_iff; lia);
      rewrite H; reflexivity
  | |- context [(?a ?= ?b)%Z] =>
      let H := fresh in
      assert (H : (a ?= b)%Z = Gt) by (apply Z.compare_gt_iff; lia);
      rewrite H; reflexivity
  end.

Lemma SFcompare_Lt_trans (a b c : spec_float) :
  SFcompare a b = Some Lt -> SFcompare b c = Some Lt ->
  SFcompare a c = Some Lt.
Proof.
  destruct a as [sa|sa| |sa ma ea], b as [sb|sb| |sb mb eb],
           c as [sc|sc| |sc mc ec]; simpl;
    try discriminate;
    try (destruct sa); try (destruct sb); try (destruct sc); simpl;
    try discriminate; try reflexivity;
    intros H1 H2; injection H1 as H1; injection H2 as H2; f_equal.
  all: destruct (Z.compare_spec ea eb), (Z.compare_spec eb ec);
       try discriminate; subst.
  all: try (rewrite Z.compare_refl).
  all: try order_exponents.
  all: try assumption.
  - apply CompOpp_iff in H1, H2. simpl in *. apply CompOpp_iff. simpl.
    apply Pos.compare_gt_iff in H1. apply Pos.compare_gt_iff in H2.
    apply Pos.compare_gt_iff. eapply Pos.lt_trans; eassumption.
  - apply Pos.compare_lt_iff in H1. apply Pos.compare_lt_iff in H2.
    apply Pos.compare_lt_iff. eapply Pos.lt_trans; eassumption.
Qed.

Lemma SFcompare_Eq_join (a b t : spec_float) :
  SFcompare a t = Some Eq -> SFcompare b t = Some Eq ->
  SFcompare a b = Some Eq.
Proof.
  destruct a as [sa|sa| |sa ma ea], b as [sb|sb| |sb mb eb],
           t as [st|st| |st mt et]; simpl;
    try discriminate;
    try (destruct sa); try (destruct sb); try (destruct st); simpl;
    try discriminate; try reflexivity;
    intros H1 H2; injection H1 as H1; injection H2 as H2; f_equal.
  all: destruct (Z.compare_spec ea et), (Z.compare_spec eb et);
       try discriminate; subst.
  all: rewrite Z.compare_refl.
  all: try (apply CompOpp_iff in H1, H2; simpl in H1, H2).
  all: apply Pos.compare_eq in H1, H2; subst.
  all: try (apply CompOpp_iff; simpl).
  all: apply Pos.compare_refl.
Qed.

Lemma ltb_trans (a b c : float) :
  (a <? b) = true -> (b <? c) = true -> (a <? c) = true.
Proof.
  rewrite !ltb_spec. unfold SFltb.
  destruct (SFcompare (Prim2SF a) (Prim2SF b)) as [[]|] eqn:H1;
    try discriminate.
  destruct (SFcompare (Prim2SF b) (Prim2SF c)) as [[]|] eqn:H2;
    try discriminate.
  now rewrite (SFcompare_Lt_trans _ _ _ H1 H2).
Qed.

Lemma ltb_leb_false (a b : float) : (a <? b) = true -> (b <=? a) = false.
Proof.
  rewrite ltb_spec, leb_spec. unfold SFltb, SFleb.
  destruct (SFcompare (Prim2SF a) (Prim2SF b)) as [[]|] eqn:H1;
    try discriminate.
  now rewrite (SFcompare_antisym _ _ H1).
Qed.

Lemma leb_ltb_false (a b : float) : (a <=? b) = true -> (b <? a) = false.
Proof.
  rewrite ltb_spec, leb_spec. unfold SFltb, SFleb.
  destruct (SFcompare (Prim2SF a) (Prim2SF b)) as [[]|] eqn:H1;
    try discriminate; now rewrite (SFcompare_antisym _ _ H1).
Qed.

Lemma eqb_join (a b t : float) :
  (a =? t) = true -> (b =? t) = true -> (a =? b) = true.
Proof.
  rewrite !eqb_spec. unfold SFeqb.
  destruct (SFcompare (Prim2SF a) (Prim2SF t)) as [[]|] eqn:H1;
    try discriminate.
  destruct (SFcompare (Prim2SF b) (Prim2SF t)) as [[]|] eqn:H2;
    try discriminate.
  now rewrite (SFcompare_Eq_join _ _ _ H1 H2).
Qed.

End FloatOrder.

Lemma samePoint_join (p q t : Point) :
  samePoint p t = true -> samePoint q t = true -> samePoint p q = true.
Proof.
  unfold samePoint. rewrite !andb_true_iff.
  intros [Hx Hy] [Hx' Hy']. split; eapply eqb_join; eassumption.
Qed.

(* ===================================================================== *)
(** * The shape of a tick *)
(* ===================================================================== *)

Lemma spawnRocket_afterSpawn rnd s prev n :
  spawnRocket rnd 1 s = Done (prev, n) -> afterSpawn rnd s prev.
Proof.
  unfold spawnRocket, afterSpawn.
  destruct (status s); try (intros [= <- _]; now left).
  destruct (List.length (availableTargets s) =? 0)%nat;
    [intros [= <- _]; now left|].
  destruct (JS.get _ _) as [target|]; [|discriminate].
  intros [= <- _]. right. now exists target.
Qed.

(** During PLAYING, a tick that does not throw is the updater applied to
    the state the spawn left. *)
Lemma update_playing rnd s s' :
  status s = PLAYING -> update rnd s = Done s' ->
  exists n prev, afterSpawn rnd s prev /\ s' = updater rnd n prev.
Proof.
  intros Hst. unfold update. rewrite Hst.
  destruct (rnd 0%nat <? _).
  - destruct (spawnRocket rnd 1 s) as [[prev n]|] eqn:Hsp; [|discriminate].
    intros [= <-]. exists n, prev. split; [|reflexivity].
    eapply spawnRocket_afterSpawn; eassumption.
  - intros [= <-]. exists 1%nat, s. split; [now left|reflexivity].
Qed.

(** A tick throws only inside the spawn, when the draw for the target
    does not index the array of targets. *)
Lemma update_throws rnd s :
  update rnd s = TypeError ->
  status s = PLAYING /\
  (rnd 0%nat <? SPAWN_RATE_BASE + level s * 0.005) = true /\
  JS.get (availableTargets s)
    (JS.floor (rnd 1%nat * JS.of_nat (List.length (availableTargets s))))
    = None.
Proof.
  unfold update, spawnRocket.
  destruct (status s); try discriminate.
  destruct (rnd 0%nat <? _); [|discriminate].
  destruct (List.length (availableTargets s) =? 0)%nat; [discriminate|].
  destruct (JS.get _ _); [discriminate|]. auto.
Qed.

(** Outside PLAYING a tick does nothing. *)
Lemma update_not_playing rnd s :
  status s <> PLAYING -> update rnd s = Done s.
Proof.
  unfold update. destruct (status s); congruence.
Qed.

Ltac after_spawn H :=
  destruct H as [-> | [? ->]]; simpl.

Lemma score_step6 prev l : score (step6 prev l) = l_score l.
Proof.
  unfold step6.
  destruct (TARGET_SCORE <=? l_score l); [reflexivity|].
  destruct (forallb _ _); [reflexivity|].
  destruct (level prev <? _); reflexivity.
Qed.

Lemma forallb_destroyed_refill bs :
  forallb Battery.destroyed (map refill bs) = forallb Battery.destroyed bs.
Proof.
  induction bs as [|b bs IH]; simpl; [reflexivity|]. now rewrite IH.
Qed.

(** The four ways step 6 ends, with the tests that select each. *)
Lemma step6_cases prev l :
  ((TARGET_SCORE <=? l_score l) = true /\
   step6 prev l = returnAll prev l WON) \/
  ((TARGET_SCORE <=? l_score l) = false /\
   forallb Battery.destroyed (l_batteries l) = true /\
   step6 prev l = returnAll prev l LOST) \/
  ((TARGET_SCORE <=? l_score l) = false /\
   forallb Battery.destroyed (l_batteries l) = false /\
   (level prev <? newLevelOf (l_score l)) = true /\
   step6 prev l = returnLevelUp prev l (newLevelOf (l_score l))) \/
  ((TARGET_SCORE <=? l_score l) = false /\
   forallb Battery.destroyed (l_batteries l) = false /\
   (level prev <? newLevelOf (l_score l)) = false /\
   step6 prev l = returnAll prev l (status prev)).
Proof.
  unfold step6.
  destruct (TARGET_SCORE <=? l_score l); [now left|].
  destruct (forallb _ _); [right; now left|].
  destruct (level prev <? _); right; right; [left|right]; auto.
Qed.

Lemma afterSpawn_level rnd s prev :
  afterSpawn rnd s prev -> level prev = level s.
Proof. intros H. after_spawn H; reflexivity. Qed.

Lemma afterSpawn_status rnd s prev :
  afterSpawn rnd s prev -> status prev = status s.
Proof. intros H. after_spawn H; reflexivity. Qed.

(* ===================================================================== *)
(** * Win, loss and level-up *)
(* ===================================================================== *)

(** C1. A tick during PLAYING that ends with a score of at least 3000 ends
    with status WON, whatever happened to the batteries in that tick: the
    loss test is not reached. *)
Theorem win_precedence (rnd : Random) (s s' : GameState) :
  status s = PLAYING ->
  update rnd s = Done s' ->
  (3000 <=? score s') = true ->
  status s' = WON.
Proof.
  intros Hst Hup Hscore.
  destruct (update_playing _ _ Hst Hup) as (n & prev & _ & ->).
  unfold updater in *. rewrite score_step6 in Hscore.
  destruct (step6_cases prev (steps2to5 rnd n prev))
    as [[_ ->] | [(H & _) | [(H & _) | (H & _)]]];
    [reflexivity | | | ]; unfold TARGET_SCORE in H; congruence.
Qed.

(** C2. A tick during PLAYING that ends with a score below 3000, with a
    battery left, and with [floor(score / 500) + 1] above the level the
    tick started at, ends at that level with no rocket, no interceptor and
    every battery (destroyed or not) refilled to its [maxAmmo]. *)
Theorem level_up_clears (rnd : Random) (s s' : GameState) :
  status s = PLAYING ->
  update rnd s = Done s' ->
  (score s' <? 3000) = true ->
  forallb Battery.destroyed (batteries s') = false ->
  (level s <? JS.floor (score s' / 500) + 1) = true ->
  level s' = JS.floor (score s' / 500) + 1 /\
  rockets s' = [] /\
  interceptors s' = [] /\
  Forall (fun b => Battery.ammo b = Battery.maxAmmo b) (batteries s').
Proof.
  intros Hst Hup Hscore Hbat Hlev.
  destruct (update_playing _ _ Hst Hup) as (n & prev & Hsp & ->).
  unfold updater in *. rewrite score_step6 in *.
  rewrite <- (afterSpawn_level Hsp) in Hlev.
  set (l := steps2to5 rnd n prev) in *.
  destruct (step6_cases prev l)
    as [[H _] | [(_ & H & E) | [(_ & _ & _ & E) | (_ & _ & H & E)]]].
  - apply ltb_leb_false in Hscore. unfold TARGET_SCORE in H. congruence.
  - rewrite E in Hbat. simpl in Hbat. congruence.
  - rewrite E. simpl. repeat split; try reflexivity.
    apply Forall_forall. intros b Hb. apply in_map_iff in Hb.
    destruct Hb as (b0 & <- & _). reflexivity.
  - unfold newLevelOf in H. congruence.
Qed.

Lemma win_precedence_witness :
  status lastStand = PLAYING /\
  update quiet lastStand = Done (updater quiet 1 lastStand) /\
  score (updater quiet 1 lastStand) = 3000 /\
  forallb Battery.destroyed (batteries (updater quiet 1 lastStand)) = true /\
  status (updater quiet 1 lastStand) = WON.
Proof.
  split; [reflexivity|]. split; [reflexivity|].
  split; [vm_compute; reflexivity|]. split; [vm_compute; reflexivity|].
  apply (@win_precedence quiet lastStand (updater quiet 1 lastStand));
    vm_compute; reflexivity.
Defined.

Lemma level_up_clears_witness :
  (List.length (rockets levelEdge) = 2%nat /\
   List.length (interceptors levelEdge) = 1%nat /\
   map Battery.ammo (batteries levelEdge) = [3; 40; 20] /\
   score (updater quiet 1 levelEdge) = 500 /\
   map Battery.ammo (batteries (updater quiet 1 levelEdge)) = [20; 40; 20]) /\
  (level (updater quiet 1 levelEdge)
     = JS.floor (score (updater quiet 1 levelEdge) / 500) + 1 /\
   rockets (updater quiet 1 levelEdge) = [] /\
   interceptors (updater quiet 1 levelEdge) = [] /\
   Forall (fun b => Battery.ammo b = Battery.maxAmmo b)
          (batteries (updater quiet 1 levelEdge))).
Proof.
  split; [repeat split; vm_compute; reflexivity|].
  apply (@level_up_clears quiet levelEdge (updater quiet 1 levelEdge));
    vm_compute; reflexivity.
Defined.

(* ===================================================================== *)
(** * Scoring *)
(* ===================================================================== *)

Lemma afterSpawn_fields rnd s prev :
  afterSpawn rnd s prev ->
  score prev = score s /\ destroyedCount prev = destroyedCount s /\
  interceptors prev = interceptors s /\ explosions prev = explosions s /\
  cities prev = cities s /\ batteries prev = batteries s.
Proof. intros H. after_spawn H; repeat split. Qed.

(** The collision step removes the rockets that are hit and adds 50 to the
    score and 1 to the count for each of them. *)
Lemma collide_spec es rs sc dc :
  collide es rs sc dc =
  (filter (fun r => negb (hit es r)) rs,
   JS.times (List.length (filter (hit es) rs)) (fun v => v + 50) sc,
   JS.times (List.length (filter (hit es) rs)) (fun v => v + 1) dc).
Proof.
  revert sc dc. induction rs as [|r rs IH]; intros sc dc; simpl.
  - reflexivity.
  - destruct (hit es r); simpl.
    + apply IH.
    + rewrite IH. reflexivity.
Qed.

Lemma steps2to5_score rnd n prev :
  l_score (steps2to5 rnd n prev) =
  JS.times (kills rnd n prev) (fun v => v + 50) (score prev).
Proof.
  unfold kills, steps2to5.
  destruct (updateRockets _ _ _) as [[rockets2 cs] bs].
  destruct (updateInterceptors _ _ _ _ _) as [[ics pushed] n'].
  rewrite collide_spec. reflexivity.
Qed.

Lemma steps2to5_destroyedCount rnd n prev :
  l_destroyedCount (steps2to5 rnd n prev) =
  JS.times (kills rnd n prev) (fun v => v + 1) (destroyedCount prev).
Proof.
  unfold kills, steps2to5.
  destruct (updateRockets _ _ _) as [[rockets2 cs] bs].
  destruct (updateInterceptors _ _ _ _ _) as [[ics pushed] n'].
  rewrite collide_spec. reflexivity.
Qed.

(** What a tick does to the two counters: the score always gains 50 a
    kill; the kill count gains 1 a kill unless the tick ends in the
    level-up return, which leaves it at its value before the tick. *)
Lemma tick_scoring rnd s s' :
  status s = PLAYING -> update rnd s = Done s' ->
  exists n prev, afterSpawn rnd s prev /\
    score s' = JS.times (kills rnd n prev) (fun v => v + 50) (score s) /\
    (destroyedCount s' =
       JS.times (kills rnd n prev) (fun v => v + 1) (destroyedCount s) \/
     (level s <? level s') = true /\ destroyedCount s' = destroyedCount s).
Proof.
  intros Hst Hup.
  destruct (update_playing _ _ Hst Hup) as (n & prev & Hsp & ->).
  exists n, prev. split; [assumption|].
  destruct (afterSpawn_fields Hsp) as (Hsc & Hdc & _).
  unfold updater. rewrite score_step6, steps2to5_score, Hsc.
  split; [reflexivity|].
  rewrite <- Hdc, <- (afterSpawn_level Hsp), <- steps2to5_destroyedCount.
  destruct (step6_cases prev (steps2to5 rnd n prev))
    as [[_ ->] | [(_ & _ & ->) | [(_ & _ & H & ->) | (_ & _ & _ & ->)]]];
    simpl; auto.
Qed.

(** C3. On the tick that takes [levelEdge] to level 2, one rocket is caught
    in a blast and the score goes from 450 to 500, but the state the tick
    returns still has the kill count of 9 it started with: the level-up
    return does not list [destroyedCount]. *)
Theorem kill_on_level_up_not_counted :
  status levelEdge = PLAYING /\
  score levelEdge = 450 /\
  destroyedCount levelEdge = 9 /\
  update quiet levelEdge = Done (updater quiet 1 levelEdge) /\
  kills quiet 1 levelEdge = 1%nat /\
  score (updater quiet 1 levelEdge) = 500 /\
  level (updater quiet 1 levelEdge) = 2 /\
  destroyedCount (updater quiet 1 levelEdge) = 9.
Proof. repeat split; vm_compute; reflexivity. Qed.

(* ===================================================================== *)
(** * Explosions *)
(* ===================================================================== *)

Lemma updateInterceptors_pushed rnd dc ics :
  forall n arr out arr' n',
  updateInterceptors rnd n dc ics arr = (out, arr', n') ->
  exists created,
    arr' = arr ++ created /\
    Forall2 (fun i e => exists r, e = newExplosion r dc i)
            (filter interceptorArrived ics) created.
Proof.
  induction ics as [|i ics IH]; intros n arr out arr' n'; simpl.
  - intros [= _ <- _]. exists []. rewrite app_nil_r. split; constructor.
  - destruct (interceptorArrived i).
    + intros H. apply IH in H. destruct H as (created & -> & HF).
      exists (newExplosion (rnd n) dc i :: created).
      rewrite <- app_assoc. split; [reflexivity|].
      constructor; [now exists (rnd n) | assumption].
    + destruct (updateInterceptors rnd n dc ics arr) as [[o a] m] eqn:E.
      intros [= _ <- _]. eapply IH. eassumption.
Qed.

(** The array [prev.explosions] when step 6 is reached, and the filtered
    copy the local variable names. *)
Lemma steps2to5_explosions rnd n prev :
  exists created,
    Forall2 (fun i e => exists r, e = newExplosion r (destroyedCount prev) i)
            (filter interceptorArrived (interceptors prev)) created /\
    heapExplosions (steps2to5 rnd n prev) =
      map ageExplosion (explosions prev ++ created) /\
    l_explosions (steps2to5 rnd n prev) =
      filter explosionAlive (map ageExplosion (explosions prev ++ created)).
Proof.
  unfold steps2to5.
  destruct (updateRockets _ _ _) as [[rockets2 cs] bs].
  destruct (updateInterceptors _ _ _ _ _) as [[ics pushed] n'] eqn:E.
  destruct (collide _ _ _ _) as [[rockets5 sc] dc].
  apply updateInterceptors_pushed in E. destruct E as (created & -> & HF).
  exists created. simpl. auto.
Qed.

Lemma explosions_step6 prev l :
  explosions (step6 prev l) = l_explosions l \/
  (level prev <? level (step6 prev l)) = true /\
  explosions (step6 prev l) = heapExplosions l.
Proof.
  destruct (step6_cases prev l)
    as [[_ ->] | [(_ & _ & ->) | [(_ & _ & H & ->) | (_ & _ & _ & ->)]]];
    simpl; auto.
Qed.

(** C4. In a tick during PLAYING, one explosion is created for each
    interceptor that arrives, at the interceptor's target, with radius 2,
    growing, alpha 1 and maxRadius 40 * (0.5 + floor(destroyedCount / 5) *
    0.5) for the kill count the tick started with. The state the tick
    returns holds the explosions it started with followed by the new ones,
    each after its first lifecycle update (filtered for the live ones,
    except in the level-up return). *)
Theorem explosion_at_creation (rnd : Random) (s s' : GameState) :
  status s = PLAYING ->
  update rnd s = Done s' ->
  exists created,
    Forall2 (fun i e =>
               Explosion.pos e = Interceptor.target i /\
               Explosion.radius e = 2 /\
               Explosion.growing e = true /\
               Explosion.alpha e = 1 /\
               Explosion.maxRadius e =
                 40 * (0.5 + JS.floor (destroyedCount s / 5) * 0.5))
            (filter interceptorArrived (interceptors s)) created /\
    (explosions s' =
       filter explosionAlive (map ageExplosion (explosions s ++ created)) \/
     explosions s' = map ageExplosion (explosions s ++ created)).
Proof.
  intros Hst Hup.
  destruct (update_playing _ _ Hst Hup) as (n & prev & Hsp & ->).
  destruct (afterSpawn_fields Hsp) as (_ & Hdc & Hi & He & _).
  destruct (steps2to5_explosions rnd n prev) as (created & HF & Hh & Hl).
  rewrite Hdc, Hi in HF. rewrite He in Hh, Hl.
  exists created. split.
  - eapply Forall2_impl; [|exact HF].
    intros i e [r ->]. repeat split.
  - unfold updater.
    destruct (explosions_step6 prev (steps2to5 rnd n prev)) as [-> | [_ ->]];
      [left | right]; assumption.
Qed.

Lemma explosion_at_creation_witness :
  exists created,
    Forall2 (fun i e =>
               Explosion.pos e = Interceptor.target i /\
               Explosion.radius e = 2 /\
               Explosion.growing e = true /\
               Explosion.alpha e = 1 /\
               Explosion.maxRadius e =
                 40 * (0.5 + JS.floor (destroyedCount simpleKill / 5) * 0.5))
            (filter interceptorArrived (interceptors simpleKill)) created /\
    (explosions (updater quiet 1 simpleKill) =
       filter explosionAlive
         (map ageExplosion (explosions simpleKill ++ created)) \/
     explosions (updater quiet 1 simpleKill) =
       map ageExplosion (explosions simpleKill ++ created)).
Proof.
  apply (@explosion_at_creation quiet simpleKill (updater quiet 1 simpleKill));
    reflexivity.
Defined.

(** The scenario of a simple kill: the explosion is created with maxRadius
    20, the state holds it with radius 3.5, the rocket is gone and the
    score is 50. *)
Example simple_kill :
  filter interceptorArrived (interceptors simpleKill)
    = interceptors simpleKill /\
  map Explosion.maxRadius (explosions (updater quiet 1 simpleKill)) = [20] /\
  map Explosion.radius (explosions (updater quiet 1 simpleKill)) = [3.5] /\
  map Explosion.pos (explosions (updater quiet 1 simpleKill))
    = [mkPoint 50 500] /\
  rockets (updater quiet 1 simpleKill) = [] /\
  score (updater quiet 1 simpleKill) = 50 /\
  destroyedCount (updater quiet 1 simpleKill) = 1.
Proof. repeat split; vm_compute; reflexivity. Qed.

(** On a tick that does not level up, every explosion of the resulting
    state has a positive radius and a positive alpha. *)
Lemma explosions_alive_unless_level_up rnd s s' :
  status s = PLAYING -> update rnd s = Done s' ->
  Forall (fun e => (0 <? Explosion.radius e) = true /\
                   (0 <? Explosion.alpha e) = true) (explosions s') \/
  (level s <? level s') = true.
Proof.
  intros Hst Hup.
  destruct (update_playing _ _ Hst Hup) as (n & prev & Hsp & ->).
  rewrite <- (afterSpawn_level Hsp). unfold updater.
  destruct (explosions_step6 prev (steps2to5 rnd n prev)) as [-> | [H _]];
    [left | right; assumption].
  destruct (steps2to5_explosions rnd n prev) as (created & _ & _ & ->).
  apply Forall_forall. intros e He. apply filter_In in He.
  destruct He as [_ He]. unfold explosionAlive in He.
  now apply andb_true_iff in He.
Qed.

(** C6. On the tick that takes [levelEdge] to level 2, the lifecycle update
    brings the second explosion's radius from 0.5 to -0.25, and the state
    the tick returns still holds it: the level-up return reads
    [prev.explosions], the array that was written to in place, not the
    filtered copy. *)
Theorem dead_explosion_kept_on_level_up :
  status levelEdge = PLAYING /\
  update quiet levelEdge = Done (updater quiet 1 levelEdge) /\
  level (updater quiet 1 levelEdge) = 2 /\
  map Explosion.radius (explosions levelEdge) = [10; 0.5] /\
  map Explosion.radius (explosions (updater quiet 1 levelEdge))
    = [11.5; -0.25] /\
  map explosionAlive (explosions (updater quiet 1 levelEdge))
    = [true; false].
Proof. repeat split; vm_compute; reflexivity. Qed.

(* ===================================================================== *)
(** * Rockets: arrival, impact and movement *)
(* ===================================================================== *)

Section HitFirst.

Variable A : Type.
Variable pos : A -> Point.
Variable destroyed : A -> bool.
Variable mark : A -> A.
Hypothesis pos_mark : forall a, pos (mark a) = pos a.
Hypothesis destroyed_mark : forall a, destroyed (mark a) = true.

Lemma hitFirst_pos t l : map pos (hitFirst pos mark t l) = map pos l.
Proof.
  induction l as [|a l IH]; simpl; [reflexivity|].
  destruct (samePoint (pos a) t); simpl; [now rewrite pos_mark|].
  now rewrite IH.
Qed.

Lemma hitFirst_flattens t l :
  distinctPoints (map pos l) = true ->
  flattened pos destroyed t (hitFirst pos mark t l).
Proof.
  unfold flattened.
  induction l as [|a l IH]; simpl; [contradiction|].
  intros Hd. apply andb_true_iff in Hd. destruct Hd as [Ha Hd].
  destruct (samePoint (pos a) t) eqn:E; simpl.
  - intros b [<- | Hb] Hs; [apply destroyed_mark|].
    exfalso. apply negb_true_iff in Ha.
    assert (existsb (samePoint (pos a)) (map pos l) = true); [|congruence].
    apply existsb_exists. exists (pos b). split; [now apply in_map|].
    eapply samePoint_join; eassumption.
  - intros b [<- | Hb] Hs; [congruence | now apply IH].
Qed.

Lemma hitFirst_keeps t u l :
  flattened pos destroyed t l ->
  flattened pos destroyed t (hitFirst pos mark u l).
Proof.
  unfold flattened.
  induction l as [|a l IH]; simpl; [auto|].
  intros H. destruct (samePoint (pos a) u); simpl.
  - intros b [<- | Hb] Hs; [apply destroyed_mark | auto].
  - intros b [<- | Hb] Hs; [auto|]. apply IH; auto.
Qed.

End HitFirst.

Lemma hitCity_hitFirst t cs : hitCity t cs = hitFirst City.pos markCity t cs.
Proof. induction cs as [|c cs IH]; simpl; [reflexivity|]. now rewrite IH. Qed.

Lemma hitBattery_hitFirst t bs :
  hitBattery t bs = hitFirst Battery.pos markBattery t bs.
Proof. induction bs as [|b bs IH]; simpl; [reflexivity|]. now rewrite IH. Qed.

Lemma updateRockets_pos rs :
  forall cs bs out cs' bs',
  updateRockets rs cs bs = (out, cs', bs') ->
  map City.pos cs' = map City.pos cs /\
  map Battery.pos bs' = map Battery.pos bs.
Proof.
  induction rs as [|r rs IH]; intros cs bs out cs' bs'; simpl.
  - intros [= _ <- <-]. auto.
  - destruct (rocketArrived r).
    + intros H. apply IH in H. destruct H as [-> ->].
      rewrite hitCity_hitFirst, hitBattery_hitFirst.
      split; apply hitFirst_pos; reflexivity.
    + destruct (updateRockets rs cs bs) as [[o c] b] eqn:E.
      intros [= _ <- <-]. eapply IH. eassumption.
Qed.

(** Impacts met so far stay, and every arrival of the pass leaves the
    structures at its target destroyed. *)
Lemma updateRockets_impact rs :
  forall cs bs out cs' bs',
  updateRockets rs cs bs = (out, cs', bs') ->
  distinctPoints (map City.pos cs) = true ->
  distinctPoints (map Battery.pos bs) = true ->
  (forall t, flattened City.pos City.destroyed t cs ->
             flattened City.pos City.destroyed t cs') /\
  (forall t, flattened Battery.pos Battery.destroyed t bs ->
             flattened Battery.pos Battery.destroyed t bs') /\
  (forall r, In r rs -> rocketArrived r = true ->
     flattened City.pos City.destroyed (Rocket.target r) cs' /\
     flattened Battery.pos Battery.destroyed (Rocket.target r) bs').
Proof.
  induction rs as [|r rs IH]; intros cs bs out cs' bs'; simpl.
  - intros [= _ <- <-] _ _. repeat split; auto; contradiction.
  - destruct (rocketArrived r) eqn:Ha.
    + intros H Hc Hb.
      rewrite hitCity_hitFirst, hitBattery_hitFirst in H.
      apply IH in H;
        [| rewrite hitFirst_pos; auto | rewrite hitFirst_pos; auto].
      destruct H as (Kc & Kb & Kr).
      split; [intros t Ht; apply Kc, hitFirst_keeps; auto|].
      split; [intros t Ht; apply Kb, hitFirst_keeps; auto|].
      intros r0 [<- | Hr0] Hr0a; [|now apply Kr].
      split; [apply Kc | apply Kb]; apply hitFirst_flattens; auto.
    + destruct (updateRockets rs cs bs) as [[o c] b] eqn:E.
      intros [= _ <- <-] Hc Hb.
      destruct (IH _ _ _ _ _ E Hc Hb) as (Kc & Kb & Kr).
      split; [assumption|]. split; [assumption|].
      intros r0 [<- | Hr0] Hr0a; [congruence | now apply Kr].
Qed.

(** The rockets that survive step 2: those that have not arrived, moved. *)
Lemma updateRockets_out rs :
  forall cs bs,
  fst (fst (updateRockets rs cs bs)) =
  map moveRocket (filter (fun r => negb (rocketArrived r)) rs).
Proof.
  induction rs as [|r rs IH]; intros cs bs; simpl; [reflexivity|].
  destruct (rocketArrived r); simpl; [apply IH|].
  specialize (IH cs bs).
  destruct (updateRockets rs cs bs) as [[o c] b]. simpl in *. now rewrite IH.
Qed.

Lemma steps2to5_structures rnd n prev :
  updateRockets (rockets prev) (cities prev) (batteries prev) =
  (map moveRocket (filter (fun r => negb (rocketArrived r)) (rockets prev)),
   l_cities (steps2to5 rnd n prev), l_batteries (steps2to5 rnd n prev)).
Proof.
  unfold steps2to5.
  assert (H := updateRockets_out (rockets prev) (cities prev) (batteries prev)).
  destruct (updateRockets _ _ _) as [[rockets2 cs] bs].
  destruct (updateInterceptors _ _ _ _ _) as [[ics pushed] n'].
  destruct (collide _ _ _ _) as [[rockets5 sc] dc].
  simpl in *. now rewrite H.
Qed.

Lemma steps2to5_rockets rnd n prev :
  l_rockets (steps2to5 rnd n prev) =
  filter (fun r => negb (hit (l_explosions (steps2to5 rnd n prev)) r))
    (map moveRocket (filter (fun r => negb (rocketArrived r)) (rockets prev))).
Proof.
  unfold steps2to5.
  assert (H := updateRockets_out (rockets prev) (cities prev) (batteries prev)).
  destruct (updateRockets _ _ _) as [[rockets2 cs] bs].
  destruct (updateInterceptors _ _ _ _ _) as [[ics pushed] n'].
  rewrite collide_spec. simpl in *. now rewrite H.
Qed.

Lemma structures_step6 prev l :
  cities (step6 prev l) = l_cities l /\
  (batteries (step6 prev l) = l_batteries l \/
   batteries (step6 prev l) = map refill (l_batteries l)).
Proof.
  destruct (step6_cases prev l)
    as [[_ ->] | [(_ & _ & ->) | [(_ & _ & _ & ->) | (_ & _ & _ & ->)]]];
    simpl; auto.
Qed.

Lemma rockets_step6 prev l :
  rockets (step6 prev l) = l_rockets l /\
    explosions (step6 prev l) = l_explosions l \/
  (level prev <? level (step6 prev l)) = true /\ rockets (step6 prev l) = [].
Proof.
  destruct (step6_cases prev l)
    as [[_ ->] | [(_ & _ & ->) | [(_ & _ & H & ->) | (_ & _ & _ & ->)]]];
    simpl; auto.
Qed.

Lemma map_pos_refill bs : map Battery.pos (map refill bs) = map Battery.pos bs.
Proof. rewrite map_map. reflexivity. Qed.

Lemma flattened_refill t bs :
  flattened Battery.pos Battery.destroyed t bs ->
  flattened Battery.pos Battery.destroyed t (map refill bs).
Proof.
  intros H b Hb Hs. apply in_map_iff in Hb. destruct Hb as (b0 & <- & Hb0).
  simpl in *. now apply H.
Qed.

(** ** The layout is kept by every event *)

Lemma updater_layoutKept rnd n prev :
  layoutKept prev -> layoutKept (updater rnd n prev).
Proof.
  unfold layoutKept, updater. intros [Hc Hb].
  destruct (updateRockets_pos _ _ _ (steps2to5_structures rnd n prev))
    as [Kc Kb].
  destruct (structures_step6 prev (steps2to5 rnd n prev)) as (-> & [-> | ->]);
    rewrite ?map_pos_refill; split; congruence.
Qed.

Lemma afterSpawn_layoutKept rnd s prev :
  afterSpawn rnd s prev -> layoutKept s -> layoutKept prev.
Proof. intros H. after_spawn H; auto. Qed.

Lemma update_layoutKept rnd s :
  layoutKept s -> layoutKept (settle s (update rnd s)).
Proof.
  intros H. destruct (update rnd s) as [s'|] eqn:E; simpl; [|assumption].
  destruct (status s) eqn:Hst;
    try (rewrite update_not_playing in E by congruence;
         injection E as <-; assumption).
  destruct (update_playing _ _ Hst E) as (n & prev & Hsp & ->).
  apply updater_layoutKept. eapply afterSpawn_layoutKept; eassumption.
Qed.

Lemma handleCanvasClick_cases rnd canvas e s :
  handleCanvasClick rnd canvas e s = Done s \/
  handleCanvasClick rnd canvas e s = TypeError \/
  exists i, handleCanvasClick rnd canvas e s =
            Done (withInterceptors s (interceptors s ++ [i])).
Proof.
  unfold handleCanvasClick.
  destruct (status s); auto. destruct canvas as [rect|]; auto.
  destruct (negb _); auto.
  destruct (nth_error _ _); eauto.
Qed.

Lemma reachable_layoutKept s : reachable s -> layoutKept s.
Proof.
  induction 1 as [|s ev _ IH]; [split; reflexivity|].
  destruct ev as [|rnd|rnd canvas e]; simpl.
  - split; reflexivity.
  - now apply update_layoutKept.
  - destruct (handleCanvasClick_cases rnd canvas e s)
      as [-> | [-> | [i ->]]]; simpl; assumption.
Qed.

Lemma reachable_run evs : forall s, reachable s -> reachable (run evs s).
Proof.
  unfold run. induction evs as [|ev evs IH]; intros s H; simpl; [assumption|].
  apply IH. now constructor.
Qed.

Lemma layout_distinct :
  distinctPoints (map City.pos layoutCities) = true /\
  distinctPoints (map Battery.pos layoutBatteries) = true.
Proof. split; reflexivity. Qed.

(** C5. In a tick during PLAYING of a game in progress: a rocket that
    starts the tick nearer to its target than its speed leaves every city
    and every battery standing at the target destroyed; every rocket of
    the resulting state is a rocket of the tick (one the state held or the
    one just spawned) that had not arrived, moved one step; and a rocket
    at least its speed away from its target is moved by
    [(dx / dist) * speed, (dy / dist) * speed], and is in the resulting
    state unless it moved into a blast or the tick ended in a level-up. *)
Theorem rocket_arrival (rnd : Random) (s s' : GameState) :
  reachable s ->
  status s = PLAYING ->
  update rnd s = Done s' ->
  (forall r, In r (rockets s) ->
     (rocketDist r <? Rocket.speed r) = true ->
     (forall c, In c (cities s') ->
        samePoint (City.pos c) (Rocket.target r) = true ->
        City.destroyed c = true) /\
     (forall b, In b (batteries s') ->
        samePoint (Battery.pos b) (Rocket.target r) = true ->
        Battery.destroyed b = true)) /\
  (forall r', In r' (rockets s') ->
     exists r,
       (In r (rockets s) \/ exists target, r = newRocket rnd 1 s target) /\
       (rocketDist r <? Rocket.speed r) = false /\
       r' = moveRocket r) /\
  (forall r, In r (rockets s) ->
     (Rocket.speed r <=? rocketDist r) = true ->
     Rocket.pos (moveRocket r) =
       mkPoint
         (x (Rocket.pos r)
          + (x (Rocket.target r) - x (Rocket.pos r)) / rocketDist r
            * Rocket.speed r)
         (y (Rocket.pos r)
          + (y (Rocket.target r) - y (Rocket.pos r)) / rocketDist r
            * Rocket.speed r) /\
     Rocket.target (moveRocket r) = Rocket.target r /\
     Rocket.speed (moveRocket r) = Rocket.speed r /\
     (In (moveRocket r) (rockets s') \/
      hit (explosions s') (moveRocket r) = true \/
      (level s <? level s') = true)).
Proof.
  intros Hreach Hst Hup.
  destruct (update_playing _ _ Hst Hup) as (n & prev & Hsp & ->).
  assert (Hrs : forall r, In r (rockets s) -> In r (rockets prev)).
  { intros r Hr. destruct Hsp as [-> | [t ->]]; simpl; auto.
    apply in_or_app. auto. }
  assert (Hrp : forall r, In r (rockets prev) ->
            In r (rockets s) \/ exists target, r = newRocket rnd 1 s target).
  { intros r Hr. destruct Hsp as [-> | [t ->]]; simpl in *; auto.
    apply in_app_or in Hr. destruct Hr as [Hr | [<- | []]]; eauto. }
  destruct (reachable_layoutKept Hreach) as [Lc Lb].
  destruct (afterSpawn_fields Hsp) as (_ & _ & _ & _ & Ec & Eb).
  rewrite <- (afterSpawn_level Hsp). clear Hsp.
  unfold updater. set (l := steps2to5 rnd n prev).
  assert (Hstr := steps2to5_structures rnd n prev). fold l in Hstr.
  assert (Hrk := steps2to5_rockets rnd n prev). fold l in Hrk.
  destruct layout_distinct as [Dc Db].
  destruct (updateRockets_impact _ _ _ Hstr) as (_ & _ & Himp);
    [rewrite Ec, Lc; exact Dc | rewrite Eb, Lb; exact Db |].
  split; [|split].
  - intros r Hr Ha. destruct (Himp r (Hrs r Hr) Ha) as [Fc Fb].
    destruct (structures_step6 prev l) as (-> & [-> | ->]);
      split; auto; now apply flattened_refill.
  - intros r' Hr'.
    destruct (rockets_step6 prev l) as [[E _] | [_ E]];
      rewrite E in Hr'; [|contradiction].
    rewrite Hrk in Hr'. apply filter_In in Hr'. destruct Hr' as [Hr' _].
    apply in_map_iff in Hr'. destruct Hr' as (r & <- & Hr).
    apply filter_In in Hr. destruct Hr as [Hr Ha].
    exists r. apply negb_true_iff in Ha. auto.
  - intros r Hr Hfar. repeat split.
    apply leb_ltb_false in Hfar.
    destruct (rockets_step6 prev l) as [[E1 E2] | [H _]];
      [rewrite E1, E2 | auto].
    destruct (hit (l_explosions l) (moveRocket r)) eqn:Hh; [auto|].
    left. rewrite Hrk. apply filter_In. split; [|now rewrite Hh].
    apply in_map, filter_In. split; [auto|].
    unfold rocketArrived. now rewrite Hfar.
Qed.

Lemma rocket_arrival_witness :
  (status landing = PLAYING /\
   map Rocket.pos (rockets landing) = [mkPoint 150 550] /\
   map rocketArrived (rockets landing) = [true] /\
   map City.destroyed (cities landing)
     = [false; false; false; false; false; false] /\
   map City.destroyed (cities (updater quiet 1 landing))
     = [true; false; false; false; false; false] /\
   rockets (updater quiet 1 landing) = []) /\
  (forall r, In r (rockets landing) ->
     (rocketDist r <? Rocket.speed r) = true ->
     (forall c, In c (cities (updater quiet 1 landing)) ->
        samePoint (City.pos c) (Rocket.target r) = true ->
        City.destroyed c = true) /\
     (forall b, In b (batteries (updater quiet 1 landing)) ->
        samePoint (Battery.pos b) (Rocket.target r) = true ->
        Battery.destroyed b = true)).
Proof.
  split; [repeat split; vm_compute; reflexivity|].
  apply (@rocket_arrival quiet landing (updater quiet 1 landing)).
  - apply reachable_run, reach_init.
  - vm_compute; reflexivity.
  - vm_compute; reflexivity.
Defined.

(* ===================================================================== *)
(** * Taps *)
(* ===================================================================== *)

Lemma ltb_asym (a b : float) : (a <? b) = true -> (b <? a) = false.
Proof.
  intros H. destruct (b <? a) eqn:E; [|reflexivity].
  apply ltb_leb_false in H. rewrite leb_spec in H. rewrite ltb_spec in E.
  unfold SFleb, SFltb in *.
  destruct (SFcompare (Prim2SF b) (Prim2SF a)) as [[]|]; discriminate.
Qed.

Lemma ltb_irrefl (a : float) : (a <? a) = false.
Proof.
  destruct (a <? a) eqn:E; [|reflexivity]. now rewrite (ltb_asym E) in E.
Qed.

(** With no battery alive the loop leaves its two variables as they were. *)
Lemma nearestBattery_none tx bs :
  (forall b, In b bs -> Battery.destroyed b = true) ->
  forall idx best md, nearestBattery tx bs idx best md = (best, md).
Proof.
  induction bs as [|b bs IH]; intros H idx best md; simpl; [reflexivity|].
  rewrite (H b) by now left. simpl. apply IH. intros b' Hb'. apply H. now right.
Qed.

(** The loop ends with the first battery alive that no battery alive beats,
    unless none is nearer than the distance it started with. *)
Lemma nearestBattery_spec tx bs :
  forall idx best md,
  let '(k, d) := nearestBattery tx bs idx best md in
  ((k = best /\ d = md) \/
   ((d <? md) = true /\
    exists j b, k = (idx + Z.of_nat j)%Z /\ nth_error bs j = Some b /\
                Battery.destroyed b = false /\ d = tapDist tx b)) /\
  (forall b, In b bs -> Battery.destroyed b = false ->
             (tapDist tx b <? d) = false) /\
  ((d <? md) = true \/ d = md).
Proof.
  induction bs as [|b bs IH]; intros idx best md; simpl.
  - repeat split; auto. contradiction.
  - destruct (Battery.destroyed b) eqn:Hd; simpl.
    + specialize (IH (idx + 1)%Z best md).
      destruct (nearestBattery tx bs (idx + 1) best md) as [k d].
      destruct IH as (Ha & Hb & Hc). split; [|split; [|assumption]].
      * destruct Ha as [Ha | (Hlt & j & b0 & -> & Hn & Hb0 & ->)];
          [now left | right].
        split; [assumption|]. exists (S j), b0. repeat split; auto. lia.
      * intros b' [<- | Hb'] Hal; [congruence | auto].
    + fold (tapDist tx b). destruct (tapDist tx b <? md) eqn:Hlt.
      * specialize (IH (idx + 1)%Z idx (tapDist tx b)).
        destruct (nearestBattery tx bs (idx + 1) idx (tapDist tx b))
          as [k d].
        destruct IH as (Ha & Hb & Hc).
        assert (Hdm : (d <? md) = true).
        { destruct Hc as [Hc | ->]; [|assumption].
          eapply ltb_trans; eassumption. }
        split; [|split; [|now left]].
        -- right. split; [assumption|].
           destruct Ha as [[-> ->] | (_ & j & b0 & -> & Hn & Hb0 & ->)].
           ++ exists 0%nat, b. repeat split; auto. lia.
           ++ exists (S j), b0. repeat split; auto. lia.
        -- intros b' [<- | Hb'] Hal; [|auto].
           destruct Hc as [Hc | ->]; [now apply ltb_asym | apply ltb_irrefl].
      * specialize (IH (idx + 1)%Z best md).
        destruct (nearestBattery tx bs (idx + 1) best md) as [k d].
        destruct IH as (Ha & Hb & Hc). split; [|split; [|assumption]].
        -- destruct Ha as [Ha | (Hl & j & b0 & -> & Hn & Hb0 & ->)];
             [now left | right].
           split; [assumption|]. exists (S j), b0. repeat split; auto. lia.
        -- intros b' [<- | Hb'] Hal; [|auto].
           destruct Hc as [Hc | ->]; [|assumption].
           destruct (tapDist tx b <? d) eqn:E; [|reflexivity].
           rewrite (ltb_trans E Hc) in Hlt. discriminate.
Qed.

Lemma filter_none (A : Type) (f : A -> bool) (l : list A) :
  (forall a, In a l -> f a = false) -> filter f l = [].
Proof.
  induction l as [|a l IH]; intros H; simpl; [reflexivity|].
  rewrite (H a) by now left. apply IH. intros a' Ha'. apply H. now right.
Qed.

(** C7. The three guards are no-ops that end normally: a tap outside
    PLAYING, a tap during PLAYING with every battery destroyed, and a spawn
    with every city and battery destroyed each return the state they were
    given (and the spawn has made no draw). *)
Theorem guards_are_no_ops :
  (forall rnd canvas e s,
     status s <> PLAYING -> handleCanvasClick rnd canvas e s = Done s) /\
  (forall rnd canvas e s,
     status s = PLAYING ->
     (forall b, In b (batteries s) -> Battery.destroyed b = true) ->
     handleCanvasClick rnd canvas e s = Done s) /\
  (forall rnd n s,
     (forall c, In c (cities s) -> City.destroyed c = true) ->
     (forall b, In b (batteries s) -> Battery.destroyed b = true) ->
     spawnRocket rnd n s = Done (s, n)).
Proof.
  split; [|split].
  - intros rnd canvas e s H. unfold handleCanvasClick.
    destruct (status s); congruence.
  - intros rnd canvas e s Hst H. unfold handleCanvasClick. rewrite Hst.
    destruct canvas as [rect|]; [|reflexivity].
    rewrite nearestBattery_none by assumption. reflexivity.
  - intros rnd n s Hc Hb. unfold spawnRocket.
    destruct (status s); try reflexivity.
    assert (E : availableTargets s = []).
    { unfold availableTargets.
      rewrite (filter_none cityAlive (cities s)),
              (filter_none batteryAlive (batteries s)).
      - reflexivity.
      - intros b Hb'. unfold batteryAlive. now rewrite (Hb b Hb').
      - intros c Hc'. unfold cityAlive. now rewrite (Hc c Hc'). }
    rewrite E. reflexivity.
Qed.

Lemma guards_are_no_ops_witness :
  handleCanvasClick quiet (Some fullCanvas) (MouseEvent 420 100) defeated
    = Done defeated /\
  handleCanvasClick quiet (Some fullCanvas) (TouchEvent (420, 100) []) ruins
    = Done ruins /\
  spawnRocket spawning 1 ruins = Done (ruins, 1%nat).
Proof.
  destruct guards_are_no_ops as (H1 & H2 & H3).
  split; [|split].
  - apply H1. discriminate.
  - apply H2; [reflexivity|].
    intros b Hb. simpl in Hb.
    destruct Hb as [<- | [<- | [<- | []]]]; reflexivity.
  - apply H3.
    + intros c Hc. simpl in Hc.
      destruct Hc as [<- | [<- | [<- | [<- | [<- | [<- | []]]]]]];
        reflexivity.
    + intros b Hb. simpl in Hb.
      destruct Hb as [<- | [<- | [<- | []]]]; reflexivity.
Defined.

(** C8. A tap during PLAYING, with a battery alive at a finite horizontal
    distance from it, ends normally and changes one thing: an interceptor
    is appended, with the position of a battery alive that no battery
    alive is nearer the tap than (on the x axis) as its position and
    origin, the tap as its target, and speed 6. Every other field is the
    one of the state before; in particular the batteries, and so their
    ammo. *)
Theorem tap_fires_nearest (rnd : Random) (rect : DOMRect.t)
  (e : PointerEvent) (s : GameState) :
  status s = PLAYING ->
  (exists b, In b (batteries s) /\ Battery.destroyed b = false /\
             (abs (x (Battery.pos b) - x (canvasPoint rect e)) <? infinity)
               = true) ->
  exists (idx : nat) (battery : Battery.t),
    nth_error (batteries s) idx = Some battery /\
    Battery.destroyed battery = false /\
    (forall b, In b (batteries s) -> Battery.destroyed b = false ->
       (abs (x (Battery.pos b) - x (canvasPoint rect e))
        <? abs (x (Battery.pos battery) - x (canvasPoint rect e))) = false) /\
    handleCanvasClick rnd (Some rect) e s =
    Done {| score := score s;
            level := level s;
            status := status s;
            rockets := rockets s;
            interceptors :=
              interceptors s ++
              [ {| Interceptor.id := Rand36 (rnd 0%nat);
                   Interceptor.pos := Battery.pos battery;
                   Interceptor.target := canvasPoint rect e;
                   Interceptor.origin := Battery.pos battery;
                   Interceptor.speed := 6;
                   Interceptor.batteryIndex := Z.of_nat idx |} ];
            explosions := explosions s;
            cities := cities s;
            batteries := batteries s;
            destroyedCount := destroyedCount s |}.
Proof.
  intros Hst (b0 & Hin & Halive & Hfin).
  unfold handleCanvasClick. rewrite Hst.
  set (tx := x (canvasPoint rect e)) in *.
  assert (H := nearestBattery_spec tx (batteries s) 0 (-1) infinity).
  destruct (nearestBattery tx (batteries s) 0 (-1) infinity) as [k d].
  destruct H as (Ha & Hb & _). simpl fst.
  destruct Ha as [[_ ->] | (_ & j & b & -> & Hn & Hd & ->)].
  - specialize (Hb b0 Hin Halive). unfold tapDist in Hb. congruence.
  - exists j, b. split; [assumption|]. split; [assumption|].
    split; [exact Hb|].
    rewrite Z.add_0_l.
    replace (Z.of_nat j =? -1)%Z with false
      by (symmetry; apply Z.eqb_neq; lia).
    simpl negb. cbv iota.
    rewrite Nat2Z.id, Hn.
    unfold withInterceptors, newInterceptor. rewrite Hst. reflexivity.
Qed.

Lemma tap_fires_nearest_witness :
  handleCanvasClick quiet (Some fullCanvas) (MouseEvent 420 100)
    (initGame initialState) =
  Done {| score := 0; level := 1; status := PLAYING; rockets := [];
          interceptors :=
            [ {| Interceptor.id := Rand36 1;
                 Interceptor.pos := mkPoint 400 550;
                 Interceptor.target := mkPoint 420 100;
                 Interceptor.origin := mkPoint 400 550;
                 Interceptor.speed := 6;
                 Interceptor.batteryIndex := 1 |} ];
          explosions := [];
          cities := layoutCities; batteries := layoutBatteries;
          destroyedCount := 0 |} /\
  exists (idx : nat) (battery : Battery.t),
    nth_error layoutBatteries idx = Some battery /\
    Battery.destroyed battery = false /\
    (forall b, In b layoutBatteries -> Battery.destroyed b = false ->
       (abs (x (Battery.pos b) - 420)
        <? abs (x (Battery.pos battery) - 420)) = false).
Proof.
  split; [vm_compute; reflexivity|].
  destruct (@tap_fires_nearest quiet fullCanvas (MouseEvent 420 100)
              (initGame initialState) eq_refl)
    as (idx & b & Hn & Hd & Hmin & _).
  - exists (battery "b2" 400 40).
    split; [right; left; reflexivity|]. split; reflexivity.
  - exists idx, b. auto.
Defined.

(* ===================================================================== *)
(** * Restart and the reachable statuses *)
(* ===================================================================== *)

(** C9. [initGame] returns the same state whatever state it is called in:
    score 0, level 1, kill count 0, no rocket, interceptor or explosion,
    the six cities at x = 150, 250, ..., 650 on y = 550, none destroyed,
    and the three batteries at x = 50, 400, 750 on y = 550, none destroyed,
    with ammo equal to maxAmmo (20, 40, 20); the status is PLAYING. *)
Theorem restart_canonical :
  (forall s,
     score (initGame s) = 0 /\
     level (initGame s) = 1 /\
     destroyedCount (initGame s) = 0 /\
     status (initGame s) = PLAYING /\
     rockets (initGame s) = [] /\
     interceptors (initGame s) = [] /\
     explosions (initGame s) = [] /\
     map City.pos (cities (initGame s)) =
       [mkPoint 150 550; mkPoint 250 550; mkPoint 350 550;
        mkPoint 450 550; mkPoint 550 550; mkPoint 650 550] /\
     map City.destroyed (cities (initGame s)) =
       [false; false; false; false; false; false] /\
     map Battery.pos (batteries (initGame s)) =
       [mkPoint 50 550; mkPoint 400 550; mkPoint 750 550] /\
     map Battery.destroyed (batteries (initGame s)) = [false; false; false] /\
     map Battery.maxAmmo (batteries (initGame s)) = [20; 40; 20] /\
     map Battery.ammo (batteries (initGame s)) =
       map Battery.maxAmmo (batteries (initGame s))) /\
  (forall s1 s2, initGame s1 = initGame s2).
Proof. split; intros; repeat split. Qed.

Lemma status_step6 prev l :
  status (step6 prev l) = WON \/ status (step6 prev l) = LOST \/
  status (step6 prev l) = status prev.
Proof.
  destruct (step6_cases prev l)
    as [[_ ->] | [(_ & _ & ->) | [(_ & _ & _ & ->) | (_ & _ & _ & ->)]]];
    simpl; auto.
Qed.

(** A tick leaves the status as it was or ends the game. *)
Lemma status_update rnd s :
  status (settle s (update rnd s)) = status s \/
  status (settle s (update rnd s)) = WON \/
  status (settle s (update rnd s)) = LOST.
Proof.
  destruct (update rnd s) as [s'|] eqn:E; simpl; [|now left].
  destruct (status s) eqn:Hst;
    try (rewrite update_not_playing in E by congruence;
         injection E as <-; now left).
  destruct (update_playing _ _ Hst E) as (n & prev & Hsp & ->).
  unfold updater. rewrite <- Hst, <- (afterSpawn_status Hsp).
  destruct (status_step6 prev (steps2to5 rnd n prev)) as [H | [H | H]]; auto.
Qed.

(** C10. In every state the game can reach from its initial state by
    starts and restarts, frames and taps, the status is START, PLAYING, WON
    or LOST; it is never LEVEL_COMPLETE. *)
Theorem status_never_level_complete (s : GameState) :
  reachable s ->
  (status s = START \/ status s = PLAYING \/ status s = WON \/
   status s = LOST) /\
  status s <> LEVEL_COMPLETE.
Proof.
  intros H.
  assert (K : status s = START \/ status s = PLAYING \/ status s = WON \/
              status s = LOST).
  { induction H as [|s ev _ IH]; [now left|].
    destruct ev as [|rnd|rnd canvas e]; simpl.
    - right. now left.
    - destruct (status_update rnd s) as [-> | [-> | ->]]; auto.
    - destruct (handleCanvasClick_cases rnd canvas e s)
        as [-> | [-> | [i ->]]]; simpl; assumption. }
  split; [assumption|].
  destruct K as [-> | [-> | [-> | ->]]]; discriminate.
Qed.

Lemma status_never_level_complete_witness :
  (status landing = START \/ status landing = PLAYING \/
   status landing = WON \/ status landing = LOST) /\
  status landing <> LEVEL_COMPLETE.
Proof.
  apply (@status_never_level_complete landing).
  apply reachable_run, reach_init.
Defined.

(* ===================================================================== *)
(** * Scenarios *)
(* ===================================================================== *)

(** Loss: the rocket that lands on the last battery ends the game, with a
    score that is neither zero nor the target. *)
Example loss_scenario :
  let s := withRockets lastStand [rocketAt 400 549 400 550 2] in
  map Battery.destroyed (batteries s) = [true; false; true] /\
  update quiet s = Done (updater quiet 1 s) /\
  map Battery.destroyed (batteries (updater quiet 1 s)) = [true; true; true] /\
  score (updater quiet 1 s) = 2950 /\
  status (updater quiet 1 s) = LOST.
Proof. repeat split; vm_compute; reflexivity. Qed.

(** The frame that spawns: a rocket from (150, 0) to city c1 at speed 1,
    already moved one step when the frame ends. *)
Example spawn_scenario :
  map (fun r => (Rocket.pos r, Rocket.target r, Rocket.speed r))
      (rockets (run [Start; Frame spawning] initialState))
  = [(mkPoint 150 1, mkPoint 150 550, 1)].
Proof. vm_compute; reflexivity. Qed.

(* ===================================================================== *)
(** * Further properties of the callbacks *)
(* ===================================================================== *)

(** ** Taps *)

(** The two ways a tap ends. *)
Lemma handleCanvasClick_shape (rnd : Random) (canvas : option DOMRect.t)
  (e : PointerEvent) (s : GameState) :
  handleCanvasClick rnd canvas e s = Done s \/
  exists (i : Interceptor.t) (b : Battery.t),
    handleCanvasClick rnd canvas e s
      = Done (withInterceptors s (interceptors s ++ [i])) /\
    (0 <= Interceptor.batteryIndex i)%Z /\
    nth_error (batteries s) (Z.to_nat (Interceptor.batteryIndex i)) = Some b /\
    Battery.destroyed b = false /\
    Interceptor.origin i = Battery.pos b /\
    Interceptor.pos i = Battery.pos b /\
    Interceptor.speed i = 6.
Proof.
  unfold handleCanvasClick.
  destruct (status s); auto. destruct canvas as [rect|]; auto.
  set (tx := x (canvasPoint rect e)).
  assert (H := nearestBattery_spec tx (batteries s) 0 (-1) infinity).
  destruct (nearestBattery tx (batteries s) 0 (-1) infinity) as [k d].
  destruct H as (Ha & _ & _). simpl fst.
  destruct Ha as [[-> _] | (_ & j & b & -> & Hn & Hd & _)]; [now left|].
  right. rewrite Z.add_0_l.
  replace (Z.of_nat j =? -1)%Z with false
    by (symmetry; apply Z.eqb_neq; lia).
  simpl negb. cbv iota. rewrite Nat2Z.id, Hn.
  exists (newInterceptor rnd b (canvasPoint rect e) (Z.of_nat j)), b.
  simpl. rewrite Nat2Z.id. repeat split; auto. lia.
Qed.

(** X1. [handleCanvasClick] never throws: the index the loop leaves is -1
    or the index of a battery of the array. It returns the state it was
    given or that state with one interceptor appended, which starts at its
    origin, the position of the battery alive that its [batteryIndex]
    names, and has speed 6. *)
Theorem tap_never_throws (rnd : Random) (canvas : option DOMRect.t)
  (e : PointerEvent) (s : GameState) :
  handleCanvasClick rnd canvas e s = Done s \/
  exists (i : Interceptor.t) (b : Battery.t),
    handleCanvasClick rnd canvas e s
      = Done (withInterceptors s (interceptors s ++ [i])) /\
    (0 <= Interceptor.batteryIndex i)%Z /\
    nth_error (batteries s) (Z.to_nat (Interceptor.batteryIndex i)) = Some b /\
    Battery.destroyed b = false /\
    Interceptor.origin i = Battery.pos b /\
    Interceptor.pos i = Battery.pos b /\
    Interceptor.speed i = 6.
Proof. exact (handleCanvasClick_shape rnd canvas e s). Qed.

(** ** Games that are not being played *)

Lemma handleCanvasClick_not_playing rnd canvas e s :
  status s <> PLAYING -> handleCanvasClick rnd canvas e s = Done s.
Proof. unfold handleCanvasClick. destruct (status s); congruence. Qed.

(** X2. Before the first start and after a game has ended, frames and taps
    do nothing, however many there are: only a click on the button of the
    overlay changes the state. *)
Theorem stopped_game_stays (evs : list Event) (s : GameState) :
  status s <> PLAYING ->
  forallb (fun ev => negb (isStartEvent ev)) evs = true ->
  run evs s = s.
Proof.
  intros Hst. unfold run.
  induction evs as [|ev evs IH]; simpl; [reflexivity|].
  intros H. apply andb_true_iff in H. destruct H as [Hev Hevs].
  destruct ev as [|rnd|rnd canvas e]; simpl in *; [discriminate| |].
  - rewrite update_not_playing by assumption. simpl. now apply IH.
  - rewrite handleCanvasClick_not_playing by assumption. simpl. now apply IH.
Qed.

Lemma stopped_game_stays_witness :
  run [Frame spawning; Tap quiet (Some fullCanvas) (MouseEvent 420 100);
       Frame quiet] defeated = defeated.
Proof.
  apply (@stopped_game_stays _ defeated); [discriminate | reflexivity].
Defined.

(** ** How a tick ends *)

(** X3. A tick during PLAYING ends in one of three ways, decided by the
    score and the batteries alone: WON with a score of at least 3000; LOST
    with a lower score and every battery destroyed; PLAYING with a lower
    score and a battery left. The cities play no part. *)
Theorem tick_outcome (rnd : Random) (s s' : GameState) :
  status s = PLAYING ->
  update rnd s = Done s' ->
  (status s' = WON /\ (3000 <=? score s') = true) \/
  (status s' = LOST /\ (3000 <=? score s') = false /\
   forallb Battery.destroyed (batteries s') = true) \/
  (status s' = PLAYING /\ (3000 <=? score s') = false /\
   forallb Battery.destroyed (batteries s') = false).
Proof.
  intros Hst Hup.
  destruct (update_playing _ _ Hst Hup) as (n & prev & Hsp & ->).
  unfold updater. rewrite score_step6.
  rewrite <- Hst, <- (afterSpawn_status Hsp).
  destruct (step6_cases prev (steps2to5 rnd n prev))
    as [[H ->] | [(H & Hb & ->) | [(H & Hb & _ & ->) | (H & Hb & _ & ->)]]];
    simpl; unfold TARGET_SCORE in H; rewrite ?forallb_destroyed_refill;
    rewrite ?(afterSpawn_status Hsp), ?Hst; auto.
Qed.

Lemma tick_outcome_witness :
  (map City.destroyed (cities lastHit)
     = [false; false; false; false; false; false] /\
   status (updater quiet 1 lastHit) = LOST /\
   score (updater quiet 1 lastHit) = 2950) /\
  ((status (updater quiet 1 lastHit) = WON /\
    (3000 <=? score (updater quiet 1 lastHit)) = true) \/
   (status (updater quiet 1 lastHit) = LOST /\
    (3000 <=? score (updater quiet 1 lastHit)) = false /\
    forallb Battery.destroyed (batteries (updater quiet 1 lastHit)) = true) \/
   (status (updater quiet 1 lastHit) = PLAYING /\
    (3000 <=? score (updater quiet 1 lastHit)) = false /\
    forallb Battery.destroyed (batteries (updater quiet 1 lastHit)) = false)).
Proof.
  split; [repeat split; vm_compute; reflexivity|].
  apply (@tick_outcome quiet lastHit (updater quiet 1 lastHit));
    vm_compute; reflexivity.
Defined.

(** X4. A tick during PLAYING never lowers the level. When it changes it,
    the new level is [floor(score / 500) + 1] for the score the tick ends
    with, the game is still PLAYING, and no rocket or interceptor is
    left. *)
Theorem level_only_rises (rnd : Random) (s s' : GameState) :
  status s = PLAYING ->
  update rnd s = Done s' ->
  level s' = level s \/
  ((level s <? level s') = true /\
   level s' = JS.floor (score s' / 500) + 1 /\
   status s' = PLAYING /\
   rockets s' = [] /\
   interceptors s' = []).
Proof.
  intros Hst Hup.
  destruct (update_playing _ _ Hst Hup) as (n & prev & Hsp & ->).
  unfold updater. rewrite score_step6.
  rewrite <- (afterSpawn_level Hsp), <- Hst, <- (afterSpawn_status Hsp).
  destruct (step6_cases prev (steps2to5 rnd n prev))
    as [[_ ->] | [(_ & _ & ->) | [(_ & _ & H & ->) | (_ & _ & _ & ->)]]];
    simpl; auto.
  right. repeat split; auto.
Qed.

Lemma level_only_rises_witness :
  (level levelEdge = 1 /\ level (updater quiet 1 levelEdge) = 2) /\
  (level (updater quiet 1 levelEdge) = level levelEdge \/
   ((level levelEdge <? level (updater quiet 1 levelEdge)) = true /\
    level (updater quiet 1 levelEdge)
      = JS.floor (score (updater quiet 1 levelEdge) / 500) + 1 /\
    status (updater quiet 1 levelEdge) = PLAYING /\
    rockets (updater quiet 1 levelEdge) = [] /\
    interceptors (updater quiet 1 levelEdge) = [])).
Proof.
  split; [split; vm_compute; reflexivity|].
  apply (@level_only_rises quiet levelEdge (updater quiet 1 levelEdge));
    vm_compute; reflexivity.
Defined.

(** ** Cities and batteries *)

Lemma Forall2_same (A : Type) (R : A -> A -> Prop) (l : list A) :
  (forall a, R a a) -> Forall2 R l l.
Proof. intros H. induction l; constructor; auto. Qed.

Lemma Forall2_chain (A : Type) (R : A -> A -> Prop) :
  (forall a b c, R a b -> R b c -> R a c) ->
  forall l1 l2 l3, Forall2 R l1 l2 -> Forall2 R l2 l3 -> Forall2 R l1 l3.
Proof.
  intros HR l1 l2 l3 H12. revert l3.
  induction H12 as [|a b l1 l2 Hab _ IH]; intros l3 H23;
    inversion H23; subst; constructor; eauto.
Qed.

Lemma hitFirst_step (A : Type) (pos : A -> Point) (mark : A -> A)
  (R : A -> A -> Prop) (t : Point) (l : list A) :
  (forall a, R a a) -> (forall a, R a (mark a)) ->
  Forall2 R l (hitFirst pos mark t l).
Proof.
  intros Hrefl Hmark. induction l as [|a l IH]; simpl; [constructor|].
  destruct (samePoint (pos a) t); constructor; auto.
  now apply Forall2_same.
Qed.

Lemma cityStep_refl c : cityStep c c.
Proof. repeat split; auto. Qed.

Lemma cityStep_trans a b c : cityStep a b -> cityStep b c -> cityStep a c.
Proof.
  intros (H1 & H2 & H3) (K1 & K2 & K3). repeat split; try congruence; auto.
Qed.

Lemma batteryStep_refl b : batteryStep b b.
Proof. repeat split; auto. Qed.

Lemma batteryStep_trans a b c :
  batteryStep a b -> batteryStep b c -> batteryStep a c.
Proof.
  intros (H1 & H2 & H3 & H4 & H5) (K1 & K2 & K3 & K4 & K5).
  repeat split; try congruence; auto.
  destruct K5 as [K5 | K5], H5 as [H5 | H5]; [left | right | right | right];
    congruence.
Qed.

Lemma updateRockets_step rs :
  forall cs bs out cs' bs',
  updateRockets rs cs bs = (out, cs', bs') ->
  Forall2 cityStep cs cs' /\ Forall2 batteryStep bs bs'.
Proof.
  induction rs as [|r rs IH]; intros cs bs out cs' bs'; simpl.
  - intros [= _ <- <-].
    split; apply Forall2_same; [apply cityStep_refl | apply batteryStep_refl].
  - destruct (rocketArrived r).
    + intros H. apply IH in H. destruct H as [Hc Hb].
      rewrite hitCity_hitFirst in Hc. rewrite hitBattery_hitFirst in Hb.
      split.
      * eapply Forall2_chain; [exact cityStep_trans | | exact Hc].
        apply hitFirst_step; [apply cityStep_refl|].
        intros c. repeat split.
      * eapply Forall2_chain; [exact batteryStep_trans | | exact Hb].
        apply hitFirst_step; [apply batteryStep_refl|].
        intros b. repeat split. now left.
    + destruct (updateRockets rs cs bs) as [[o c] b] eqn:E.
      intros [= _ <- <-]. eapply IH. eassumption.
Qed.

Lemma refill_step bs : Forall2 batteryStep bs (map refill bs).
Proof.
  induction bs as [|b bs IH]; simpl; constructor; [|assumption].
  repeat split; auto.
Qed.

Lemma updater_structures rnd n prev :
  Forall2 cityStep (cities prev) (cities (updater rnd n prev)) /\
  Forall2 batteryStep (batteries prev) (batteries (updater rnd n prev)).
Proof.
  destruct (updateRockets_step _ _ _ (steps2to5_structures rnd n prev))
    as [Hc Hb].
  unfold updater.
  destruct (structures_step6 prev (steps2to5 rnd n prev)) as (-> & [-> | ->]);
    split; auto.
  eapply Forall2_chain; [exact batteryStep_trans | exact Hb |].
  apply refill_step.
Qed.

Lemma update_structures rnd s s' :
  update rnd s = Done s' ->
  Forall2 cityStep (cities s) (cities s') /\
  Forall2 batteryStep (batteries s) (batteries s').
Proof.
  intros Hup. destruct (status s) eqn:Hst;
    try (rewrite update_not_playing in Hup by congruence;
         injection Hup as <-;
         split; apply Forall2_same;
         [apply cityStep_refl | apply batteryStep_refl]).
  destruct (update_playing _ _ Hst Hup) as (n & prev & Hsp & ->).
  destruct (afterSpawn_fields Hsp) as (_ & _ & _ & _ & <- & <-).
  apply updater_structures.
Qed.

(** X5. A tick keeps every city and every battery, in order, with its id
    and position (and a battery's maxAmmo). It never repairs: what was
    destroyed before the tick is destroyed after it, a level-up included.
    The only write to ammo is the refill to maxAmmo. *)
Theorem destruction_is_permanent (rnd : Random) (s s' : GameState) :
  update rnd s = Done s' ->
  Forall2 (fun c c' =>
             City.id c' = City.id c /\
             City.pos c' = City.pos c /\
             (City.destroyed c = true -> City.destroyed c' = true))
          (cities s) (cities s') /\
  Forall2 (fun b b' =>
             Battery.id b' = Battery.id b /\
             Battery.pos b' = Battery.pos b /\
             Battery.maxAmmo b' = Battery.maxAmmo b /\
             (Battery.destroyed b = true -> Battery.destroyed b' = true) /\
             (Battery.ammo b' = Battery.ammo b \/
              Battery.ammo b' = Battery.maxAmmo b))
          (batteries s) (batteries s').
Proof. exact (@update_structures rnd s s'). Qed.

Lemma destruction_is_permanent_witness :
  (map Battery.destroyed (batteries levelEdge) = [false; false; true] /\
   map Battery.destroyed (batteries (updater quiet 1 levelEdge))
     = [false; false; true] /\
   map Battery.destroyed (batteries lastHit) = [true; false; true] /\
   map Battery.destroyed (batteries (updater quiet 1 lastHit))
     = [true; true; true]) /\
  Forall2 cityStep (cities lastHit) (cities (updater quiet 1 lastHit)) /\
  Forall2 batteryStep (batteries lastHit)
          (batteries (updater quiet 1 lastHit)).
Proof.
  split; [repeat split; vm_compute; reflexivity|].
  apply (@destruction_is_permanent quiet lastHit (updater quiet 1 lastHit)).
  vm_compute; reflexivity.
Defined.

(** ** The layout through a game *)

Lemma cityStep_cards cs cs' :
  Forall2 cityStep cs cs' -> map cityCard cs' = map cityCard cs.
Proof.
  induction 1 as [|c c' cs cs' (H1 & H2 & _) _ IH]; simpl; [reflexivity|].
  unfold cityCard at 1 3. now rewrite H1, H2, IH.
Qed.

Lemma batteryStep_cards bs bs' :
  Forall2 batteryStep bs bs' -> Forall ammoFull bs ->
  map batteryCard bs' = map batteryCard bs /\ Forall ammoFull bs'.
Proof.
  induction 1 as [|b b' bs bs' (H1 & H2 & H3 & _ & H5) _ IH]; simpl;
    intros HF; [split; [reflexivity | constructor]|].
  inversion HF as [|? ? Hb HF']; subst. destruct (IH HF') as [IH1 IH2].
  unfold ammoFull in Hb.
  assert (Ha : Battery.ammo b' = Battery.ammo b)
    by (destruct H5; congruence).
  split.
  - unfold batteryCard at 1 3. now rewrite H1, H2, H3, Ha, IH1.
  - constructor; [unfold ammoFull; congruence | assumption].
Qed.

Lemma reachable_stocked s : reachable s -> stocked s.
Proof.
  induction 1 as [|s ev _ (Hc & Hb & Hf)].
  - repeat split; repeat constructor.
  - destruct ev as [|rnd|rnd canvas e]; simpl.
    + repeat split; repeat constructor.
    + destruct (update rnd s) as [s'|] eqn:E; simpl;
        [|repeat split; assumption].
      destruct (update_structures _ _ E) as [Kc Kb].
      destruct (batteryStep_cards Kb Hf) as [Kb1 Kb2].
      repeat split; [|congruence|assumption].
      rewrite (cityStep_cards Kc). assumption.
    + destruct (handleCanvasClick_cases rnd canvas e s)
        as [-> | [-> | [i ->]]]; simpl; repeat split; assumption.
Qed.

(** X6. Through any game (starts, frames and taps in any order) the six
    cities and three batteries keep their ids and positions, and every
    battery keeps the ammo and maxAmmo of the layout (20, 40, 20): a tap
    takes no ammo, and the refill of a level-up writes the value that was
    there. *)
Theorem layout_and_ammo_never_change (s : GameState) :
  reachable s ->
  map (fun c => (City.id c, City.pos c)) (cities s)
    = [(Lit "c1", mkPoint 150 550); (Lit "c2", mkPoint 250 550);
       (Lit "c3", mkPoint 350 550); (Lit "c4", mkPoint 450 550);
       (Lit "c5", mkPoint 550 550); (Lit "c6", mkPoint 650 550)] /\
  map (fun b => (Battery.id b, Battery.pos b, Battery.ammo b,
                 Battery.maxAmmo b)) (batteries s)
    = [(Lit "b1", mkPoint 50 550, 20, 20);
       (Lit "b2", mkPoint 400 550, 40, 40);
       (Lit "b3", mkPoint 750 550, 20, 20)].
Proof.
  intros H. destruct (reachable_stocked H) as (Hc & Hb & _).
  split; [exact Hc | exact Hb].
Qed.

Lemma layout_and_ammo_never_change_witness :
  map City.destroyed (cities (handle landing (Frame quiet)))
    = [true; false; false; false; false; false] /\
  map (fun c => (City.id c, City.pos c))
      (cities (handle landing (Frame quiet)))
    = [(Lit "c1", mkPoint 150 550); (Lit "c2", mkPoint 250 550);
       (Lit "c3", mkPoint 350 550); (Lit "c4", mkPoint 450 550);
       (Lit "c5", mkPoint 550 550); (Lit "c6", mkPoint 650 550)] /\
  map (fun b => (Battery.id b, Battery.pos b, Battery.ammo b,
                 Battery.maxAmmo b))
      (batteries (handle landing (Frame quiet)))
    = [(Lit "b1", mkPoint 50 550, 20, 20);
       (Lit "b2", mkPoint 400 550, 40, 40);
       (Lit "b3", mkPoint 750 550, 20, 20)].
Proof.
  split; [vm_compute; reflexivity|].
  apply (@layout_and_ammo_never_change (handle landing (Frame quiet))).
  apply reach_step, reachable_run, reach_init.
Defined.

(** ** Spawning *)

Lemma get_In (A : Type) (arr : list A) (v : JS.number) (a : A) :
  JS.get arr v = Some a -> In a arr.
Proof.
  unfold JS.get. destruct (JS.index v) as [i|]; [|discriminate].
  apply nth_error_In.
Qed.

Lemma availableTargets_In s t :
  In t (availableTargets s) ->
  (exists c, In c (cities s) /\ City.destroyed c = false /\ City.pos c = t) \/
  (exists b, In b (batteries s) /\ Battery.destroyed b = false /\
             Battery.pos b = t).
Proof.
  unfold availableTargets. intros H. apply in_app_or in H.
  destruct H as [H | H]; apply in_map_iff in H;
    destruct H as (a & <- & H); apply filter_In in H; destruct H as [H Ha];
    [left | right]; exists a; repeat split; auto;
    [unfold cityAlive in Ha | unfold batteryAlive in Ha];
    now apply negb_true_iff in Ha.
Qed.

(** The two ways a spawn that does not throw ends. *)
Lemma spawnRocket_shape rnd n s s' n' :
  spawnRocket rnd n s = Done (s', n') ->
  (s' = s /\ n' = n) \/
  exists r,
    s' = withRockets s (rockets s ++ [r]) /\ n' = (n + 3)%nat /\
    status s = PLAYING /\
    Rocket.pos r = mkPoint (rnd (n + 1)%nat * 800) 0 /\
    Rocket.speed r = 0.8 + level s * 0.2 /\
    In (Rocket.target r) (availableTargets s).
Proof.
  unfold spawnRocket.
  destruct (status s) eqn:Hst; try (intros [= <- <-]; now left).
  destruct (List.length (availableTargets s) =? 0)%nat;
    [intros [= <- <-]; now left|].
  destruct (JS.get _ _) as [target|] eqn:Hg; [|discriminate].
  intros [= <- <-]. right. exists (newRocket rnd n s target).
  repeat split. simpl. eapply get_In; eassumption.
Qed.

(** X7. A spawn that does not throw either leaves the state as it is and
    makes no draw (the game is not being played, or nothing is left to aim
    at), or makes three draws and appends one rocket: on the top edge, at
    speed [0.8 + level * 0.2], aimed at the position of a city or battery
    that is not destroyed. Nothing else changes. *)
Theorem spawn_aims_at_a_standing_structure (rnd : Random) (n : nat)
  (s s' : GameState) (n' : nat) :
  spawnRocket rnd n s = Done (s', n') ->
  (s' = s /\ n' = n) \/
  exists r,
    s' = withRockets s (rockets s ++ [r]) /\ n' = (n + 3)%nat /\
    status s = PLAYING /\
    y (Rocket.pos r) = 0 /\
    Rocket.speed r = 0.8 + level s * 0.2 /\
    ((exists c, In c (cities s) /\ City.destroyed c = false /\
                City.pos c = Rocket.target r) \/
     (exists b, In b (batteries s) /\ Battery.destroyed b = false /\
                Battery.pos b = Rocket.target r)).
Proof.
  intros H. apply spawnRocket_shape in H.
  destruct H as [H | (r & -> & -> & Hst & Hp & Hs & Ht)]; [now left|].
  right. exists r. repeat split; auto.
  - now rewrite Hp.
  - now apply availableTargets_In.
Qed.

Lemma spawn_aims_at_a_standing_structure_witness :
  exists r,
    spawnRocket spawning 1 lastHit
      = Done (withRockets lastHit (rockets lastHit ++ [r]), 4%nat) /\
    Rocket.target r = mkPoint 150 550 /\
    ((exists c, In c (cities lastHit) /\ City.destroyed c = false /\
                City.pos c = Rocket.target r) \/
     (exists b, In b (batteries lastHit) /\ Battery.destroyed b = false /\
                Battery.pos b = Rocket.target r)).
Proof.
  destruct (@spawn_aims_at_a_standing_structure spawning 1 lastHit
              (withRockets lastHit
                 (rockets lastHit
                  ++ [newRocket spawning 1 lastHit (mkPoint 150 550)]))
              4%nat)
    as [[H _] | (r & Hr & _ & _ & _ & _ & Ht)].
  - vm_compute; reflexivity.
  - exfalso. apply (f_equal (fun st => List.length (rockets st))) in H.
    vm_compute in H. discriminate.
  - assert (E : r = newRocket spawning 1 lastHit (mkPoint 150 550)).
    { apply (f_equal rockets) in Hr. simpl in Hr.
      injection Hr as Hr. symmetry. exact Hr. }
    exists r. split; [|split; [|exact Ht]].
    + rewrite E. vm_compute; reflexivity.
    + rewrite E. reflexivity.
Defined.

(** ** Interceptors *)

Lemma updateInterceptors_out rnd dc ics :
  forall n arr,
  fst (fst (updateInterceptors rnd n dc ics arr)) =
  map moveInterceptor (filter (fun i => negb (interceptorArrived i)) ics).
Proof.
  induction ics as [|i ics IH]; intros n arr; simpl; [reflexivity|].
  destruct (interceptorArrived i); simpl; [apply IH|].
  specialize (IH n arr).
  destruct (updateInterceptors rnd n dc ics arr) as [[o a] m].
  simpl in *. now rewrite IH.
Qed.

Lemma steps2to5_interceptors rnd n prev :
  l_interceptors (steps2to5 rnd n prev) =
  map moveInterceptor
    (filter (fun i => negb (interceptorArrived i)) (interceptors prev)).
Proof.
  unfold steps2to5.
  assert (H := updateInterceptors_out rnd (destroyedCount prev)
                 (interceptors prev) n (explosions prev)).
  destruct (updateRockets _ _ _) as [[rockets2 cs] bs].
  destruct (updateInterceptors _ _ _ _ _) as [[ics pushed] n'].
  destruct (collide _ _ _ _) as [[rockets5 sc] dc].
  simpl in *. exact H.
Qed.

Lemma interceptors_step6 prev l :
  interceptors (step6 prev l) = l_interceptors l \/
  (level prev <? level (step6 prev l)) = true /\
  interceptors (step6 prev l) = [].
Proof.
  destruct (step6_cases prev l)
    as [[_ ->] | [(_ & _ & ->) | [(_ & _ & H & ->) | (_ & _ & _ & ->)]]];
    simpl; auto.
Qed.

Lemma update_interceptors rnd s s' :
  status s = PLAYING -> update rnd s = Done s' ->
  interceptors s' =
    map moveInterceptor
      (filter (fun i => negb (interceptorArrived i)) (interceptors s)) \/
  (level s <? level s') = true /\ interceptors s' = [].
Proof.
  intros Hst Hup.
  destruct (update_playing _ _ Hst Hup) as (n & prev & Hsp & ->).
  destruct (afterSpawn_fields Hsp) as (_ & _ & <- & _).
  rewrite <- (afterSpawn_level Hsp).
  rewrite <- steps2to5_interceptors with (rnd := rnd) (n := n).
  apply interceptors_step6.
Qed.

(** X8. In a tick during PLAYING the interceptors that have not arrived
    stay, in order, each moved one step with its id, target, origin, speed
    and battery index unchanged; those that have arrived are removed. On a
    level-up none is left. *)
Theorem interceptors_in_flight (rnd : Random) (s s' : GameState) :
  status s = PLAYING ->
  update rnd s = Done s' ->
  (interceptors s' =
     map moveInterceptor
       (filter (fun i => negb (interceptorArrived i)) (interceptors s)) \/
   (level s <? level s') = true /\ interceptors s' = []) /\
  (forall i,
     Interceptor.id (moveInterceptor i) = Interceptor.id i /\
     Interceptor.target (moveInterceptor i) = Interceptor.target i /\
     Interceptor.origin (moveInterceptor i) = Interceptor.origin i /\
     Interceptor.speed (moveInterceptor i) = Interceptor.speed i /\
     Interceptor.batteryIndex (moveInterceptor i)
       = Interceptor.batteryIndex i).
Proof.
  intros Hst Hup. split; [now apply update_interceptors with (rnd := rnd)|].
  intros i. repeat split.
Qed.

Lemma interceptors_in_flight_witness :
  map Interceptor.pos (interceptors (run oneShot initialState))
    = [mkPoint 400.53280736344868 538.01183432240555] /\
  map Interceptor.target (interceptors (run oneShot initialState))
    = [mkPoint 420 100] /\
  (interceptors (updater quiet 1 (run oneShot initialState)) =
     map moveInterceptor
       (filter (fun i => negb (interceptorArrived i))
               (interceptors (run oneShot initialState))) \/
   (level (run oneShot initialState)
    <? level (updater quiet 1 (run oneShot initialState))) = true /\
   interceptors (updater quiet 1 (run oneShot initialState)) = []).
Proof.
  split; [vm_compute; reflexivity|]. split; [vm_compute; reflexivity|].
  apply (@interceptors_in_flight quiet (run oneShot initialState)
           (updater quiet 1 (run oneShot initialState)));
    vm_compute; reflexivity.
Defined.

(** ** A game without taps *)

Lemma hit_nothing rs : filter (hit []) rs = [].
Proof. apply filter_none. reflexivity. Qed.

(** With no interceptor in flight and no explosion, steps 3 to 5 change
    nothing but the rockets' positions. *)
Lemma steps2to5_clear_sky rnd n prev :
  interceptors prev = [] -> explosions prev = [] ->
  l_interceptors (steps2to5 rnd n prev) = [] /\
  l_explosions (steps2to5 rnd n prev) = [] /\
  heapExplosions (steps2to5 rnd n prev) = [] /\
  l_score (steps2to5 rnd n prev) = score prev /\
  l_destroyedCount (steps2to5 rnd n prev) = destroyedCount prev.
Proof.
  intros Hi He. unfold steps2to5. rewrite Hi, He. simpl.
  destruct (updateRockets _ _ _) as [[rockets2 cs] bs].
  rewrite collide_spec, hit_nothing. simpl. repeat split.
Qed.

Lemma updater_unarmed rnd n prev :
  unarmed prev -> unarmed (updater rnd n prev).
Proof.
  intros (Hi & He & Hs & Hd & Hl & Hw).
  destruct (steps2to5_clear_sky rnd n prev Hi He) as (Ki & Ke & Kh & Ks & Kd).
  unfold updater, step6, newLevelOf. rewrite Ks, Hs, Hl.
  change (TARGET_SCORE <=? 0) with false.
  change (1 <? JS.floor (0 / 500) + 1) with false.
  cbv iota.
  destruct (forallb _ _); unfold unarmed; simpl;
    rewrite Ki, Ke, Ks, Kd; repeat split; auto; discriminate.
Qed.

Lemma afterSpawn_unarmed rnd s prev :
  afterSpawn rnd s prev -> unarmed s -> unarmed prev.
Proof. intros H. after_spawn H; auto. Qed.

Lemma handle_unarmed s ev :
  isTapEvent ev = false -> unarmed s -> unarmed (handle s ev).
Proof.
  destruct ev as [|rnd|rnd canvas e]; simpl; intros Ht Hs; [| |discriminate].
  - repeat split. discriminate.
  - destruct (update rnd s) as [s'|] eqn:E; simpl; [|assumption].
    destruct (status s) eqn:Hst;
      try (rewrite update_not_playing in E by congruence;
           injection E as <-; assumption).
    destruct (update_playing _ _ Hst E) as (n & prev & Hsp & ->).
    apply updater_unarmed. eapply afterSpawn_unarmed; eassumption.
Qed.

(** X9. A game in which the player never taps scores nothing: whatever the
    starts and frames, no interceptor or explosion ever exists, the score
    and the kill count stay 0, the level stays 1, and the game is never
    won. *)
Theorem no_tap_no_score (evs : list Event) :
  forallb (fun ev => negb (isTapEvent ev)) evs = true ->
  interceptors (run evs initialState) = [] /\
  explosions (run evs initialState) = [] /\
  score (run evs initialState) = 0 /\
  destroyedCount (run evs initialState) = 0 /\
  level (run evs initialState) = 1 /\
  status (run evs initialState) <> WON.
Proof.
  assert (G : forall s, unarmed s ->
            forallb (fun ev => negb (isTapEvent ev)) evs = true ->
            unarmed (run evs s)).
  { unfold run. induction evs as [|ev evs IH]; intros s Hs; simpl; [auto|].
    intros H. apply andb_true_iff in H. destruct H as [Hev Hevs].
    apply IH; [|assumption]. apply handle_unarmed; [|assumption].
    now apply negb_true_iff. }
  intros H. apply G; [|assumption].
  repeat split. discriminate.
Qed.

Lemma no_tap_no_score_witness :
  List.length (rockets (run idle initialState)) = 1%nat /\
  status (run idle initialState) = PLAYING /\
  interceptors (run idle initialState) = [] /\
  explosions (run idle initialState) = [] /\
  score (run idle initialState) = 0 /\
  destroyedCount (run idle initialState) = 0 /\
  level (run idle initialState) = 1 /\
  status (run idle initialState) <> WON.
Proof.
  split; [vm_compute; reflexivity|]. split; [vm_compute; reflexivity|].
  apply (no_tap_no_score idle). vm_compute; reflexivity.
Defined.

(** ** Invariants of a game in progress *)

Lemma ageExplosion_belowMax e : belowMax (ageExplosion e).
Proof.
  unfold belowMax, ageExplosion.
  destruct (Explosion.growing e); simpl; [|discriminate].
  destruct (Explosion.maxRadius e <=? _); [discriminate | reflexivity].
Qed.

Lemma updater_belowMax rnd n prev :
  Forall belowMax (explosions (updater rnd n prev)).
Proof.
  destruct (steps2to5_explosions rnd n prev) as (created & _ & Hh & Hl).
  unfold updater.
  destruct (explosions_step6 prev (steps2to5 rnd n prev)) as [-> | [_ ->]];
    [rewrite Hl | rewrite Hh]; apply Forall_forall; intros e He.
  - apply filter_In in He. destruct He as [He _].
    apply in_map_iff in He. destruct He as (e0 & <- & _).
    apply ageExplosion_belowMax.
  - apply in_map_iff in He. destruct He as (e0 & <- & _).
    apply ageExplosion_belowMax.
Qed.

(** X10. In every state a game reaches, an explosion that is still growing
    has a radius below its maxRadius: the tick that brings the radius to
    maxRadius or beyond turns growing off in the same update, and every
    explosion is updated in the tick that creates it. *)
Theorem growing_explosions_are_below_max (s : GameState) :
  reachable s ->
  Forall (fun e => Explosion.growing e = true ->
                   (Explosion.maxRadius e <=? Explosion.radius e) = false)
         (explosions s).
Proof.
  induction 1 as [|s ev _ IH]; [constructor|].
  destruct ev as [|rnd|rnd canvas e]; simpl.
  - constructor.
  - destruct (update rnd s) as [s'|] eqn:E; simpl; [|assumption].
    destruct (status s) eqn:Hst;
      try (rewrite update_not_playing in E by congruence;
           injection E as <-; assumption).
    destruct (update_playing _ _ Hst E) as (n & prev & _ & ->).
    apply updater_belowMax.
  - destruct (handleCanvasClick_cases rnd canvas e s)
      as [-> | [-> | [i ->]]]; simpl; assumption.
Qed.

Lemma growing_explosions_are_below_max_witness :
  map (fun e => (Explosion.growing e, Explosion.radius e,
                 Explosion.maxRadius e))
      (explosions (run pointBlank initialState)) = [(true, 3.5, 20)] /\
  Forall (fun e => Explosion.growing e = true ->
                   (Explosion.maxRadius e <=? Explosion.radius e) = false)
         (explosions (run pointBlank initialState)).
Proof.
  split; [vm_compute; reflexivity|].
  apply (@growing_explosions_are_below_max (run pointBlank initialState)).
  apply reachable_run, reach_init.
Defined.

Lemma moveInterceptor_fromLayout i :
  fromLayout i -> fromLayout (moveInterceptor i).
Proof. intros H. exact H. Qed.

Lemma update_fromLayout rnd s s' :
  status s = PLAYING -> update rnd s = Done s' ->
  Forall fromLayout (interceptors s) -> Forall fromLayout (interceptors s').
Proof.
  intros Hst Hup HF.
  destruct (update_interceptors _ _ Hst Hup) as [-> | [_ ->]]; [|constructor].
  apply Forall_forall. intros i Hi. apply in_map_iff in Hi.
  destruct Hi as (i0 & <- & Hi0). apply filter_In in Hi0.
  apply moveInterceptor_fromLayout.
  eapply Forall_forall; [exact HF | apply Hi0].
Qed.

(** X11. Every interceptor in flight in a game was fired from one of the
    three batteries: its speed is 6, its battery index is 0, 1 or 2 and its
    origin is the position of the battery the layout has at that index. *)
Theorem interceptors_come_from_batteries (s : GameState) :
  reachable s ->
  Forall (fun i =>
            Interceptor.speed i = 6 /\
            (0 <= Interceptor.batteryIndex i < 3)%Z /\
            nth_error [mkPoint 50 550; mkPoint 400 550; mkPoint 750 550]
                      (Z.to_nat (Interceptor.batteryIndex i))
              = Some (Interceptor.origin i))
         (interceptors s).
Proof.
  change (reachable s -> Forall fromLayout (interceptors s)).
  induction 1 as [|s ev H IH]; [constructor|].
  destruct ev as [|rnd|rnd canvas e]; simpl.
  - constructor.
  - destruct (update rnd s) as [s'|] eqn:E; simpl; [|assumption].
    destruct (status s) eqn:Hst;
      try (rewrite update_not_playing in E by congruence;
           injection E as <-; assumption).
    eapply update_fromLayout; eassumption.
  - destruct (handleCanvasClick_shape rnd canvas e s)
      as [-> | (i & b & -> & Hk & Hn & _ & Ho & _ & Hs)];
      simpl; [assumption|].
    apply Forall_app. split; [assumption|]. constructor; [|constructor].
    destruct (reachable_layoutKept H) as [_ Lb].
    assert (Hlen : (Z.to_nat (Interceptor.batteryIndex i) < 3)%nat).
    { change 3%nat with (List.length (map Battery.pos layoutBatteries)).
      rewrite <- Lb, length_map. apply nth_error_Some. congruence. }
    split; [assumption|]. split; [lia|].
    rewrite <- Lb, Ho. now apply map_nth_error.
Qed.

Lemma interceptors_come_from_batteries_witness :
  map Interceptor.batteryIndex (interceptors (run oneShot initialState))
    = [1%Z] /\
  Forall (fun i =>
            Interceptor.speed i = 6 /\
            (0 <= Interceptor.batteryIndex i < 3)%Z /\
            nth_error [mkPoint 50 550; mkPoint 400 550; mkPoint 750 550]
                      (Z.to_nat (Interceptor.batteryIndex i))
              = Some (Interceptor.origin i))
         (interceptors (run oneShot initialState)).
Proof.
  split; [vm_compute; reflexivity|].
  apply (@interceptors_come_from_batteries (run oneShot initialState)).
  apply reachable_run, reach_init.
Defined.

(** ** Rockets of a game in progress *)

Lemma availableTargets_positions s t :
  In t (availableTargets s) ->
  In t (map City.pos (cities s) ++ map Battery.pos (batteries s)).
Proof.
  unfold availableTargets. intros H. apply in_app_or in H. apply in_or_app.
  destruct H as [H | H]; [left | right]; apply in_map_iff in H;
    destruct H as (a & <- & H); apply filter_In in H; destruct H as [H _];
    now apply in_map.
Qed.

(** The state the updater of a tick is applied to, with what is known of
    the rocket the spawn appended. *)
Lemma update_playing_spawn rnd s s' :
  status s = PLAYING -> update rnd s = Done s' ->
  exists n prev,
    s' = updater rnd n prev /\
    (prev = s \/
     exists r, prev = withRockets s (rockets s ++ [r]) /\
               In (Rocket.target r) (availableTargets s)).
Proof.
  intros Hst. unfold update. rewrite Hst.
  destruct (rnd 0%nat <? _).
  - destruct (spawnRocket rnd 1 s) as [[prev n]|] eqn:Hsp; [|discriminate].
    intros [= <-]. exists n, prev. split; [reflexivity|].
    apply spawnRocket_shape in Hsp.
    destruct Hsp as [[-> _] | (r & -> & _ & _ & _ & _ & Ht)];
      [now left | right; eauto].
  - intros [= <-]. exists 1%nat, s. auto.
Qed.

Lemma updater_rockets rnd n prev r' :
  In r' (rockets (updater rnd n prev)) ->
  exists r, In r (rockets prev) /\ r' = moveRocket r.
Proof.
  unfold updater. intros H.
  destruct (rockets_step6 prev (steps2to5 rnd n prev)) as [[E _] | [_ E]];
    rewrite E in H; [|contradiction].
  rewrite steps2to5_rockets in H. apply filter_In in H. destruct H as [H _].
  apply in_map_iff in H. destruct H as (r & <- & Hr).
  apply filter_In in Hr. exists r. split; [apply Hr | reflexivity].
Qed.

(** X12. Every rocket in a game aims at the position of one of the nine
    structures of the layout (a city or a battery, standing when the
    rocket was spawned): no tick changes a rocket's target. *)
Theorem rockets_aim_at_the_layout (s : GameState) :
  reachable s ->
  Forall (fun r =>
            In (Rocket.target r)
               [mkPoint 150 550; mkPoint 250 550; mkPoint 350 550;
                mkPoint 450 550; mkPoint 550 550; mkPoint 650 550;
                mkPoint 50 550; mkPoint 400 550; mkPoint 750 550])
         (rockets s).
Proof.
  change (reachable s ->
          Forall (fun r => In (Rocket.target r) layoutTargets) (rockets s)).
  induction 1 as [|s ev H IH]; [constructor|].
  destruct ev as [|rnd|rnd canvas e]; simpl.
  - constructor.
  - destruct (update rnd s) as [s'|] eqn:E; simpl; [|assumption].
    destruct (status s) eqn:Hst;
      try (rewrite update_not_playing in E by congruence;
           injection E as <-; assumption).
    destruct (update_playing_spawn _ _ Hst E) as (n & prev & -> & Hprev).
    apply Forall_forall. intros r' Hr'.
    apply updater_rockets in Hr'. destruct Hr' as (r & Hr & ->).
    change (Rocket.target (moveRocket r)) with (Rocket.target r).
    destruct Hprev as [-> | (r0 & -> & Ht)].
    + exact (proj1 (Forall_forall _ _) IH r Hr).
    + simpl in Hr. apply in_app_or in Hr.
      destruct Hr as [Hr | [<- | []]].
      * exact (proj1 (Forall_forall _ _) IH r Hr).
      * apply availableTargets_positions in Ht.
        destruct (reachable_layoutKept H) as [Lc Lb].
        rewrite Lc, Lb in Ht. exact Ht.
  - destruct (handleCanvasClick_cases rnd canvas e s)
      as [-> | [-> | [i ->]]]; simpl; assumption.
Qed.

Lemma rockets_aim_at_the_layout_witness :
  map Rocket.target (rockets landing) = [mkPoint 150 550] /\
  Forall (fun r =>
            In (Rocket.target r)
               [mkPoint 150 550; mkPoint 250 550; mkPoint 350 550;
                mkPoint 450 550; mkPoint 550 550; mkPoint 650 550;
                mkPoint 50 550; mkPoint 400 550; mkPoint 750 550])
         (rockets landing).
Proof.
  split; [vm_compute; reflexivity|].
  apply (@rockets_aim_at_the_layout landing).
  apply reachable_run, reach_init.
Defined.

(** ** The overlay *)




(** Without the invariant on the status the overlay could be empty: a
    state with status LEVEL_COMPLETE renders it with no panel. *)
Example overlay_blank_on_level_complete :
  overlay {| score := 0; level := 1; status := LEVEL_COMPLETE;
             rockets := []; interceptors := []; explosions := [];
             cities := layoutCities; batteries := layoutBatteries;
             destroyedCount := 0 |} = Some [].
Proof. reflexivity. Qed.

(** ** Counting rockets and points *)

Lemma filter_split_length (A : Type) (f : A -> bool) (l : list A) :
  List.length l
  = (List.length (filter (fun a => negb (f a)) l)
     + List.length (filter f l))%nat.
Proof.
  induction l as [|a l IH]; simpl; [reflexivity|].
  destruct (f a); simpl; lia.
Qed.

Lemma kills_rockets rnd n prev :
  List.length (rockets prev)
  = (List.length (l_rockets (steps2to5 rnd n prev)) + kills rnd n prev
     + List.length (filter rocketArrived (rockets prev)))%nat.
Proof.
  rewrite steps2to5_rockets. unfold kills.
  rewrite updateRockets_out.
  rewrite (filter_split_length rocketArrived (rockets prev)).
  set (moved := map moveRocket _).
  replace (List.length (filter (fun r => negb (rocketArrived r))
                               (rockets prev)))
    with (List.length moved) by (unfold moved; apply length_map).
  rewrite (filter_split_length
             (hit (l_explosions (steps2to5 rnd n prev))) moved).
  reflexivity.
Qed.

(** X14. Every rocket of a tick is accounted for. Of the rockets the tick
    works on (those of the state and the one just spawned), the number
    equals those left in the resulting state, plus those caught in a
    blast, plus those that landed; unless the tick levels up, which leaves
    none. The score the tick ends with is the score it started with plus
    50, once for each rocket caught, on every tick. *)
Theorem rockets_and_points_add_up (rnd : Random) (s s' : GameState) :
  status s = PLAYING ->
  update rnd s = Done s' ->
  exists n prev,
    afterSpawn rnd s prev /\
    score s' = JS.times (kills rnd n prev) (fun v => v + 50) (score s) /\
    (List.length (rockets prev)
       = (List.length (rockets s') + kills rnd n prev
          + List.length (filter rocketArrived (rockets prev)))%nat \/
     (level s <? level s') = true /\ rockets s' = []).
Proof.
  intros Hst Hup.
  destruct (update_playing _ _ Hst Hup) as (n & prev & Hsp & ->).
  exists n, prev. split; [assumption|].
  destruct (afterSpawn_fields Hsp) as (Hsc & _).
  unfold updater. rewrite score_step6, steps2to5_score, Hsc.
  split; [reflexivity|].
  rewrite <- (afterSpawn_level Hsp).
  destruct (rockets_step6 prev (steps2to5 rnd n prev)) as [[-> _] | H];
    [left; apply kills_rockets | right; exact H].
Qed.

Lemma rockets_and_points_add_up_witness :
  (List.length (rockets lastStand) = 2%nat /\
   kills quiet 1 lastStand = 1%nat /\
   List.length (filter rocketArrived (rockets lastStand)) = 1%nat /\
   rockets (updater quiet 1 lastStand) = [] /\
   score lastStand = 2950 /\ score (updater quiet 1 lastStand) = 3000) /\
  exists n prev,
    afterSpawn quiet lastStand prev /\
    score (updater quiet 1 lastStand)
      = JS.times (kills quiet n prev) (fun v => v + 50) (score lastStand) /\
    (List.length (rockets prev)
       = (List.length (rockets (updater quiet 1 lastStand))
          + kills quiet n prev
          + List.length (filter rocketArrived (rockets prev)))%nat \/
     (level lastStand <? level (updater quiet 1 lastStand)) = true /\
     rockets (updater quiet 1 lastStand) = []).
Proof.
  split; [repeat split; vm_compute; reflexivity|].
  apply (@rockets_and_points_add_up quiet lastStand
           (updater quiet 1 lastStand)); vm_compute; reflexivity.
Defined.

(** X15. After a tick during PLAYING that leaves the level as it was,
    every explosion of the state has a positive radius and a positive
    alpha: those the lifecycle update has brought to 0 or below are gone,
    and those left are the explosions of the state before, in order,
    followed by the new ones. *)
Theorem spent_explosions_are_removed (rnd : Random) (s s' : GameState) :
  status s = PLAYING ->
  update rnd s = Done s' ->
  level s' = level s ->
  Forall (fun e => (0 <? Explosion.radius e) = true /\
                   (0 <? Explosion.alpha e) = true) (explosions s') /\
  exists created,
    explosions s'
    = filter explosionAlive (map ageExplosion (explosions s ++ created)).
Proof.
  intros Hst Hup Hlev.
  destruct (update_playing _ _ Hst Hup) as (n & prev & Hsp & ->).
  destruct (afterSpawn_fields Hsp) as (_ & _ & _ & He & _).
  rewrite <- (afterSpawn_level Hsp) in Hlev. unfold updater in *.
  destruct (steps2to5_explosions rnd n prev) as (created & _ & _ & Hl).
  rewrite He in Hl.
  destruct (explosions_step6 prev (steps2to5 rnd n prev)) as [-> | [H _]].
  - rewrite Hl. split; [|now exists created].
    apply Forall_forall. intros e Hin. apply filter_In in Hin.
    destruct Hin as [_ Hin]. unfold explosionAlive in Hin.
    now apply andb_true_iff in Hin.
  - rewrite Hlev, ltb_irrefl in H. discriminate.
Qed.

Lemma spent_explosions_are_removed_witness :
  (map Explosion.radius (explosions (withRockets levelEdge []))
     = [10; 0.5] /\
   map Explosion.radius
       (explosions (updater quiet 1 (withRockets levelEdge [])))
     = [11.5]) /\
  Forall (fun e => (0 <? Explosion.radius e) = true /\
                   (0 <? Explosion.alpha e) = true)
         (explosions (updater quiet 1 (withRockets levelEdge []))) /\
  exists created,
    explosions (updater quiet 1 (withRockets levelEdge []))
    = filter explosionAlive
        (map ageExplosion
             (explosions (withRockets levelEdge []) ++ created)).
Proof.
  split; [split; vm_compute; reflexivity|].
  apply (@spent_explosions_are_removed quiet (withRockets levelEdge [])
           (updater quiet 1 (withRockets levelEdge [])));
    vm_compute; reflexivity.
Defined.

(** ** Which battery fires *)

Section FloatOrderMore.

Lemma SFcompare_refl (a : spec_float) :
  a <> S754_nan -> SFcompare a a = Some Eq.
Proof.
  destruct a as [s|s| |s m e]; simpl; intros H;
    try congruence; try (destruct s; reflexivity).
  rewrite Z.compare_refl.
  change (PosDef.Pos.compare_cont Eq m m) with (Pos.compare m m).
  rewrite Pos.compare_refl. destruct s; reflexivity.
Qed.

Lemma SFcompare_Some_l (a b : spec_float) (c : comparison) :
  SFcompare a b = Some c -> a <> S754_nan /\ b <> S754_nan.
Proof.
  destruct a, b; simpl; try discriminate; intros _; split; discriminate.
Qed.

Lemma SFcompare_None (a b : spec_float) :
  SFcompare a b = None -> a = S754_nan \/ b = S754_nan.
Proof.
  destruct a as [sa|sa| |sa ma ea], b as [sb|sb| |sb mb eb]; simpl;
    try discriminate; auto.
Qed.

Lemma SFcompare_Lt_Eq_trans (a b c : spec_float) :
  SFcompare a b = Some Lt -> SFcompare b c = Some Eq ->
  SFcompare a c = Some Lt.
Proof.
  destruct a as [sa|sa| |sa ma ea], b as [sb|sb| |sb mb eb],
           c as [sc|sc| |sc mc ec]; simpl;
    try discriminate;
    try (destruct sa); try (destruct sb); try (destruct sc); simpl;
    try discriminate; try reflexivity;
    intros H1 H2; injection H1 as H1; injection H2 as H2; f_equal.
  all: destruct (Z.compare_spec eb ec); try discriminate; subst.
  all: try (apply CompOpp_iff in H2; simpl in H2).
  all: apply Pos.compare_eq in H2; subst.
  all: exact H1.
Qed.

Lemma eqb_self_spec (a : float) :
  (a =? a) = true <-> Prim2SF a <> S754_nan.
Proof.
  rewrite eqb_spec. unfold SFeqb. split.
  - destruct (SFcompare (Prim2SF a) (Prim2SF a)) as [c|] eqn:E;
      [|discriminate].
    intros _. apply (SFcompare_Some_l _ _ E).
  - intros H. now rewrite SFcompare_refl.
Qed.

Lemma ltb_number (a b : float) :
  (a <? b) = true -> (a =? a) = true /\ (b =? b) = true.
Proof.
  rewrite ltb_spec, !eqb_self_spec. unfold SFltb.
  destruct (SFcompare (Prim2SF a) (Prim2SF b)) as [c|] eqn:E;
    [|discriminate].
  intros _. apply (SFcompare_Some_l _ _ E).
Qed.

Lemma not_ltb_leb (a b : float) :
  (a <? b) = false -> (a =? a) = true -> (b =? b) = true ->
  (b <=? a) = true.
Proof.
  rewrite ltb_spec, leb_spec, !eqb_self_spec. unfold SFltb, SFleb.
  intros H Ha Hb.
  destruct (SFcompare (Prim2SF a) (Prim2SF b)) as [c|] eqn:E.
  - rewrite (SFcompare_antisym _ _ E). destruct c; try reflexivity.
    discriminate.
  - apply SFcompare_None in E. destruct E; contradiction.
Qed.

Lemma ltb_leb_trans (a b c : float) :
  (a <? b) = true -> (b <=? c) = true -> (a <? c) = true.
Proof.
  rewrite !ltb_spec, leb_spec. unfold SFltb, SFleb.
  destruct (SFcompare (Prim2SF a) (Prim2SF b)) as [[]|] eqn:H1;
    try discriminate.
  destruct (SFcompare (Prim2SF b) (Prim2SF c)) as [[]|] eqn:H2;
    try discriminate; intros _ _.
  - now rewrite (SFcompare_Lt_Eq_trans _ _ _ H1 H2).
  - now rewrite (SFcompare_Lt_trans _ _ _ H1 H2).
Qed.

End FloatOrderMore.

(** A battery alive that the loop has passed before it stops on a later one
    is strictly farther from the tap than the one it stops on. *)
Lemma nearestBattery_first tx bs :
  forall idx best md,
  (best < idx)%Z -> (md =? md) = true ->
  forall j b,
  nth_error bs j = Some b -> Battery.destroyed b = false ->
  (tapDist tx b =? tapDist tx b) = true ->
  (idx + Z.of_nat j < fst (nearestBattery tx bs idx best md))%Z ->
  (snd (nearestBattery tx bs idx best md) <? tapDist tx b) = true.
Proof.
  induction bs as [|b0 bs IH]; intros idx best md Hbest Hmd j b Hn Hal Hnum;
    [destruct j; discriminate|].
  simpl. destruct (Battery.destroyed b0) eqn:Hd0; simpl.
  - destruct j as [|j]; simpl in Hn; [congruence|].
    intros Hk. apply (IH (idx + 1)%Z best md) with (j := j); auto; lia.
  - fold (tapDist tx b0). destruct (tapDist tx b0 <? md) eqn:Hlt.
    + destruct (ltb_number Hlt) as [Hn0 _].
      destruct j as [|j]; simpl in Hn.
      * injection Hn as <-. intros Hk.
        assert (S := nearestBattery_spec tx bs (idx + 1)%Z idx (tapDist tx b0)).
        destruct (nearestBattery tx bs (idx + 1) idx (tapDist tx b0))
          as [k d].
        simpl in *. destruct S as ([[-> _] | [S _]] & _); [lia | exact S].
      * intros Hk.
        apply (IH (idx + 1)%Z idx (tapDist tx b0)) with (j := j); auto; lia.
    + destruct j as [|j]; simpl in Hn.
      * injection Hn as <-. intros Hk.
        assert (S := nearestBattery_spec tx bs (idx + 1)%Z best md).
        destruct (nearestBattery tx bs (idx + 1) best md) as [k d].
        simpl in *. destruct S as ([[-> _] | [S _]] & _); [lia|].
        eapply ltb_leb_trans; [exact S|].
        now apply not_ltb_leb.
      * intros Hk. apply (IH (idx + 1)%Z best md) with (j := j); auto; lia.
Qed.

Lemma withInterceptors_grows s i :
  s <> withInterceptors s (interceptors s ++ [i]).
Proof.
  intros H. apply (f_equal (fun st => List.length (interceptors st))) in H.
  simpl in H. rewrite length_app in H. simpl in H. lia.
Qed.

(** X16. When a tap fires, the battery that fires is strictly nearer the
    tap (on the x axis) than every battery alive listed before it whose
    distance is a number: of the batteries alive that are equally near,
    the first of the array fires. *)
Theorem ties_go_to_the_first_battery (rnd : Random) (rect : DOMRect.t)
  (e : PointerEvent) (s : GameState) (i : Interceptor.t) :
  handleCanvasClick rnd (Some rect) e s
    = Done (withInterceptors s (interceptors s ++ [i])) ->
  forall (j : nat) (b : Battery.t),
    nth_error (batteries s) j = Some b ->
    Battery.destroyed b = false ->
    (Z.of_nat j < Interceptor.batteryIndex i)%Z ->
    (abs (x (Battery.pos b) - x (canvasPoint rect e))
     =? abs (x (Battery.pos b) - x (canvasPoint rect e))) = true ->
    (abs (x (Interceptor.origin i) - x (canvasPoint rect e))
     <? abs (x (Battery.pos b) - x (canvasPoint rect e))) = true.
Proof.
  unfold handleCanvasClick.
  destruct (status s);
    try (intros [= H]; exfalso; exact (@withInterceptors_grows _ _ H)).
  set (tx := x (canvasPoint rect e)).
  assert (S := nearestBattery_spec tx (batteries s) 0%Z (-1)%Z infinity).
  assert (F := @nearestBattery_first tx (batteries s) 0%Z (-1)%Z infinity).
  destruct (nearestBattery tx (batteries s) 0 (-1) infinity) as [k d].
  simpl fst in *. simpl snd in F.
  destruct S as ([[-> _] | (_ & jk & bk & -> & Hn & _ & ->)] & _ & _).
  - simpl. intros [= H]. exfalso. exact (@withInterceptors_grows _ _ H).
  - rewrite Z.add_0_l in *.
    replace (Z.of_nat jk =? -1)%Z with false
      by (symmetry; apply Z.eqb_neq; lia).
    simpl negb. cbv iota. rewrite Nat2Z.id, Hn.
    intros [= H]. apply app_inj_tail in H. destruct H as [_ <-]. simpl.
    intros j b Hj Hal Hlt Hnum.
    apply (F ltac:(lia) eq_refl j b Hj Hal Hnum). lia.
Qed.

Lemma ties_go_to_the_first_battery_witness :
  (Interceptor.batteryIndex
     (newInterceptor quiet (battery "b2" 400 40) (mkPoint 575 100) 1) = 1%Z /\
   abs (400 - 575) = 175 /\ abs (750 - 575) = 175 /\ abs (50 - 575) = 525) /\
  (abs (x (Interceptor.origin
             (newInterceptor quiet (battery "b2" 400 40) (mkPoint 575 100) 1))
        - x (canvasPoint fullCanvas (MouseEvent 575 100)))
   <? abs (x (Battery.pos (battery "b1" 50 20))
           - x (canvasPoint fullCanvas (MouseEvent 575 100)))) = true.
Proof.
  split; [repeat split; vm_compute; reflexivity|].
  apply (@ties_go_to_the_first_battery quiet fullCanvas (MouseEvent 575 100)
           (initGame initialState)
           (newInterceptor quiet (battery "b2" 400 40) (mkPoint 575 100) 1))
    with (j := 0%nat); try (vm_compute; reflexivity).
Defined.

(** A tap half way between two batteries fires the one listed first. *)
Example tie_between_b1_and_b2 :
  handleCanvasClick quiet (Some fullCanvas) (MouseEvent 225 100)
    (initGame initialState)
  = Done (withInterceptors (initGame initialState)
            [newInterceptor quiet (battery "b1" 50 20) (mkPoint 225 100) 0]).
Proof. vm_compute; reflexivity. Qed.
